(** * Migration runner (scripts/run_migrations.py): model and properties

    The runner lists the [*.sql] files of the migrations directory in
    sorted order, loads the identities recorded in [schema_migrations],
    and applies every pending script inside a transaction of a single
    psycopg2 connection, stopping at the first failure.

    The embedding follows the source function by function.  Effects are
    threaded through a small state-and-exception monad [M]; the
    PostgreSQL engine behind [cur.execute] is an interface ([Engine])
    whose statements act on the durable contents of the database and on
    the contents seen by the connection's open transaction. *)

From Stdlib Require Import ZArith Ascii.
From stdpp Require Import gmap strings list sorting.

Local Open Scope string_scope.
Local Open Scope list_scope.

(** ** File names *)

Module Filename.

(** [name.rfind('.')]: index of the last dot, if any. *)
Fixpoint rfind_dot (name : string) : option nat :=
  match name with
  | EmptyString => None
  | String c rest =>
      match rfind_dot rest with
      | Some i => Some (S i)
      | None => if Ascii.eqb c "."%char then Some 0 else None
      end
  end.

(** [PurePath.stem] on a final path component (pathlib):
<<
    i = name.rfind('.')
    if 0 < i < len(name) - 1: return name[:i]
    else:                     return name
>> *)
Definition stem (name : string) : string :=
  match rfind_dot name with
  | Some i =>
      if Nat.ltb 0 i && Nat.ltb i (String.length name - 1)
      then String.substring 0 i name
      else name
  | None => name
  end.

(** [PurePath.suffix], the file extension in pathlib's sense. *)
Definition suffix (name : string) : string :=
  match rfind_dot name with
  | Some i =>
      if Nat.ltb 0 i && Nat.ltb i (String.length name - 1)
      then String.substring i (String.length name - i) name
      else ""
  | None => ""
  end.

(** [fnmatch(name, "*.sql")] on a case-sensitive file system: the name
    ends with the four characters [.sql]. *)
Definition matches_sql (name : string) : bool :=
  let n := String.length name in
  Nat.leb 4 n && String.eqb (String.substring (n - 4) 4 name) ".sql".

(** Order used by [sorted] on paths of one directory: code-point-wise
    lexicographic comparison of the names. *)
Definition name_le (a b : string) : Prop := String.leb a b = true.

#[global] Instance name_le_dec a b : Decision (name_le a b).
Proof. unfold name_le. apply _. Defined.

End Filename.

(** ** extract_migration_id

    [Path(filename).stem]; the runner only passes [migration_file.name],
    a single path component, for which [Path(filename).name] is the
    argument itself. *)
Definition extract_migration_id (filename : string) : string :=
  Filename.stem filename.

(** ** The database behind the connection *)

(** Contents of the target database: the bookkeeping table
    [schema_migrations] (absent, or the set of its [migration_id]
    primary keys; [applied_at] is filled in by the server and never read
    by the runner) and everything else, whose shape belongs to the
    engine. *)
Record db_state (schema : Type) := DbState {
  migrations_table : option (gset string);
  user_schema : schema
}.
Arguments DbState {schema} _ _.
Arguments migrations_table {schema} _.
Arguments user_schema {schema} _.

(** The SQL engine: how a script text splits into statements and what a
    statement does.  A statement runs inside the transaction psycopg2
    has opened: it is given the durable contents of the database and the
    contents the transaction sees; it gives back the durable contents,
    and either an error or the contents the transaction sees after it.
    An ordinary statement changes only what the transaction sees; a
    [COMMIT] written in the script makes that durable, a [ROLLBACK]
    written in the script goes back to the durable contents, and a
    statement that is not transactional changes the durable contents as
    well, even when it fails.  A statement may read and write any part
    of the contents, the bookkeeping table included. *)
Class Engine := {
  stmt : Type;
  schema : Type;
  pg_error : Type;
  parse_sql : string -> pg_error + list stmt;
  exec_stmt : stmt -> db_state schema -> db_state schema
              -> db_state schema * (pg_error + db_state schema)
}.

(** Errors of [open(...)] / [f.read()]. *)
Inductive io_error :=
| FileNotFoundError
| PermissionError
| IsADirectoryError
| UnicodeDecodeError.

(** A directory entry as [open(migration_file, "r", encoding="utf-8")]
    sees it. *)
Inductive file :=
| Readable (text : string)
| Unreadable (e : io_error).

(** What the process is started against. *)
Record env := Env {
  db_reachable : bool;
  migrations_dir : option (gmap string file)
}.

Section Runner.
Context {E : Engine}.

Definition db : Type := db_state schema.

(** [psycopg2.Error] instances the runner can meet. *)
Inductive psycopg2_error :=
| OperationalError
| EmptyQuery
| UndefinedTable
| StringDataRightTruncation
| InFailedSqlTransaction
| ServerError (e : pg_error).

(** Python exceptions. [SystemExit] is not an [Exception]. *)
Inductive exn :=
| Psycopg2Error (e : psycopg2_error)
| OtherException (e : io_error)
| SystemExit (code : Z).

(** The four kinds of text handed to [cur.execute]. *)
Inductive query :=
| CreateMigrationsTable
| SelectMigrationIds
| InsertMigration (migration_id : string)
| Script (migration_sql : string).

(** Lines written by [print], one constructor per call site. *)
Inductive line :=
| Rule
| Title
| DryRunMode
| Blank
| ErrConnect (e : psycopg2_error)
| ErrConnectDetails
| Connected
| FailedToConnect (e : exn)
| DirNotFound
| NoFilesFound
| Found (n : nat)
| AlreadyApplied (n : nat)
| Skipping (name : string)
| WouldApply (name : string)
| Applying (name : string)
| Success (name : string)
| FailedToApply (name : string) (e : psycopg2_error)
| UnexpectedError (name : string) (e : io_error)
| Stopping
| SummaryTitle
| WouldApplyCount (n : nat)
| AppliedCount (n : nat)
| FailedCount (n : nat).

(** Everything the process does that is visible from outside, in the
    order in which it happens. *)
Inductive event :=
| Print (l : line)
| EvConnect
| EvOpen (name : string)
| EvExecuted (q : query)
| EvExecuteFailed (q : query) (e : psycopg2_error)
| EvCommit
| EvRollback
| EvClose.

(** Transaction status of the connection (psycopg2, autocommit off): the
    first [execute] opens a transaction, a failing statement aborts it. *)
Inductive txn_status :=
| Idle
| InTxn (working : db)
| Aborted.

Record state := State {
  committed : db;
  txn : txn_status;
  log : list event
}.

Inductive result (A : Type) :=
| Ok (a : A)
| Raise (e : exn).
Arguments Ok {A} _.
Arguments Raise {A} _.

Definition M (A : Type) : Type := state -> state * result A.

Definition ret {A} (a : A) : M A := fun s => (s, Ok a).
Definition raise {A} (e : exn) : M A := fun s => (s, Raise e).
Definition bind {A B} (m : M A) (k : A -> M B) : M B :=
  fun s => match m s with
           | (s', Ok a) => k a s'
           | (s', Raise e) => (s', Raise e)
           end.

#[global] Instance M_ret : MRet M := @ret.
#[global] Instance M_bind : MBind M := fun A B k m => bind m k.

(** [try: body except ...: handler]. *)
Definition try_except {A} (body : M A) (handler : exn -> M A) : M A :=
  fun s => match body s with
           | (s', Ok a) => (s', Ok a)
           | (s', Raise e) => handler e s'
           end.

Definition emit (ev : event) : M unit :=
  fun s => (State (committed s) (txn s) (log s ++ [ev]), Ok tt).

Definition print (l : line) : M unit := emit (Print l).

(** *** What the server does with a query *)

(** The statements of a script run in order on the durable contents and
    on the contents the transaction sees.  The first error stops the
    script: what the statements before it made durable stays, and what
    the transaction saw is lost with it. *)
Fixpoint exec_stmts (stmts : list stmt) (durable working : db)
    : db * (pg_error + db) :=
  match stmts with
  | [] => (durable, inr working)
  | st :: rest =>
      match exec_stmt st durable working with
      | (durable', inl e) => (durable', inl e)
      | (durable', inr working') => exec_stmts rest durable' working'
      end
  end.

(** A script is parsed as a whole, then its statements run in order; a
    text without any statement is refused ("can't execute an empty
    query").  The result is the durable contents afterwards with the
    error, or with the contents the transaction then sees. *)
Definition run_script (migration_sql : string) (durable working : db)
    : db * (psycopg2_error + db) :=
  match parse_sql migration_sql with
  | inl e => (durable, inl (ServerError e))
  | inr [] => (durable, inl EmptyQuery)
  | inr stmts =>
      match exec_stmts stmts durable working with
      | (durable', inl e) => (durable', inl (ServerError e))
      | (durable', inr working') => (durable', inr working')
      end
  end.

(** Result of a query for a session whose durable contents are
    [durable] and whose transaction sees [working]: the durable contents
    afterwards, and the error or the contents the transaction then sees
    with the rows returned ([migration_id] column).
    - [CREATE TABLE IF NOT EXISTS schema_migrations (...)]
    - [SELECT migration_id FROM schema_migrations]
    - [INSERT INTO schema_migrations (migration_id) VALUES (%s)
       ON CONFLICT DO NOTHING], the column being [VARCHAR(255)]: a
      longer identity is refused (lengths are counted on the characters
      of the model's strings)
    - the text of a migration file.
    The runner's own three statements are transactional; what a script
    does is up to its statements. *)
Definition run_query (q : query) (durable working : db)
    : db * (psycopg2_error + (db * list string)) :=
  match q with
  | CreateMigrationsTable =>
      match migrations_table working with
      | Some _ => (durable, inr (working, []))
      | None => (durable, inr (DbState (Some ∅) (user_schema working), []))
      end
  | SelectMigrationIds =>
      match migrations_table working with
      | Some rows => (durable, inr (working, elements rows))
      | None => (durable, inl UndefinedTable)
      end
  | InsertMigration migration_id =>
      match migrations_table working with
      | Some rows =>
          if Nat.ltb 255 (String.length migration_id)
          then (durable, inl StringDataRightTruncation)
          else (durable,
                inr (DbState (Some ({[migration_id]} ∪ rows)) (user_schema working), []))
      | None => (durable, inl UndefinedTable)
      end
  | Script migration_sql =>
      match run_script migration_sql durable working with
      | (durable', inl e) => (durable', inl e)
      | (durable', inr working') => (durable', inr (working', []))
      end
  end.

(** *** The connection *)

(** [psycopg2.connect(...)]: a new session, no transaction open. *)
Definition connect (e : env) : M unit :=
  fun s =>
    if db_reachable e
    then (State (committed s) Idle (log s ++ [EvConnect]), Ok tt)
    else (s, Raise (Psycopg2Error OperationalError)).

(** What the server answers to [q] given the transaction status: a new
    transaction starts from the committed contents, an open one goes on
    from its working contents, an aborted one refuses the command.  (The
    runner never sends a script on an aborted transaction; a script that
    would begin by ending the aborted transaction itself is refused here
    like any other.) *)
Definition exec_result (q : query) (durable : db) (t : txn_status)
    : db * (psycopg2_error + (db * list string)) :=
  match t with
  | Idle => run_query q durable durable
  | InTxn working => run_query q durable working
  | Aborted => (durable, inl InFailedSqlTransaction)
  end.

(** [cur.execute(q)] followed by [cur.fetchall()] where rows are read.
    After an error the transaction is left for [conn.rollback()] to
    end. *)
Definition cursor_execute (q : query) : M (list string) :=
  fun s =>
    match exec_result q (committed s) (txn s) with
    | (durable, inl err) =>
        (State durable Aborted (log s ++ [EvExecuteFailed q err]),
         Raise (Psycopg2Error err))
    | (durable, inr (working, rows)) =>
        (State durable (InTxn working) (log s ++ [EvExecuted q]), Ok rows)
    end.

(** [conn.commit()]: the open transaction becomes durable; on an aborted
    transaction the server answers COMMIT with a rollback. *)
Definition commit : M unit :=
  fun s =>
    let d := match txn s with
             | InTxn working => working
             | Idle | Aborted => committed s
             end in
    (State d Idle (log s ++ [EvCommit]), Ok tt).

(** [conn.rollback()]. *)
Definition rollback : M unit :=
  fun s => (State (committed s) Idle (log s ++ [EvRollback]), Ok tt).

(** [conn.close()]: an open transaction is discarded. *)
Definition close : M unit :=
  fun s => (State (committed s) Idle (log s ++ [EvClose]), Ok tt).

(** Text of an entry of the migrations directory, or the error that
    opening or decoding it gives. *)
Definition read_file (e : env) (name : string) : io_error + string :=
  match migrations_dir e with
  | Some dir =>
      match dir !! name with
      | Some (Readable text) => inr text
      | Some (Unreadable err) => inl err
      | None => inl FileNotFoundError
      end
  | None => inl FileNotFoundError
  end.

(** [open(migration_file, "r", encoding="utf-8")] and [f.read()]. *)
Definition open_read (e : env) (name : string) : M string :=
  emit (EvOpen name) ;;
  match read_file e name with
  | inr text => mret text
  | inl err => raise (OtherException err)
  end.

(** *** The functions of run_migrations.py *)

Definition get_db_connection (e : env) : M unit :=
  try_except (connect e)
    (fun ex =>
       match ex with
       | Psycopg2Error OperationalError =>
           print (ErrConnect OperationalError) ;;
           print ErrConnectDetails ;;
           raise ex
       | _ => raise ex
       end).

Definition create_migrations_table : M unit :=
  cursor_execute CreateMigrationsTable ;;
  commit.

Definition get_applied_migrations : M (gset string) :=
  create_migrations_table ;;
  rows ← cursor_execute SelectMigrationIds ;
  mret (list_to_set rows).

Definition mark_migration_applied (migration_id : string) : M unit :=
  cursor_execute (InsertMigration migration_id) ;;
  commit.

(** [sorted(MIGRATIONS_DIR.glob("*.sql"))] on the entries of a directory. *)
Definition list_sql (dir : gmap string file) : list string :=
  merge_sort Filename.name_le
    (filter (fun name => Filename.matches_sql name = true)
            (map_to_list dir).*1).

Definition get_migration_files (e : env) : M (list string) :=
  match migrations_dir e with
  | None => print DirNotFound ;; raise (SystemExit 1)
  | Some dir => mret (list_sql dir)
  end.

Definition apply_migration (e : env) (migration_file : string) : M bool :=
  let migration_id := extract_migration_id migration_file in
  print (Applying migration_file) ;;
  try_except
    (migration_sql ← open_read e migration_file ;
     cursor_execute (Script migration_sql) ;;
     commit ;;
     mark_migration_applied migration_id ;;
     print (Success migration_file) ;;
     mret true)
    (fun ex =>
       match ex with
       | Psycopg2Error err =>
           rollback ;;
           print (FailedToApply migration_file err) ;;
           mret false
       | OtherException err =>
           rollback ;;
           print (UnexpectedError migration_file err) ;;
           mret false
       | SystemExit code => raise (SystemExit code)
       end).

(** The [for migration_file in migration_files] loop with its two
    counters; [break] ends the recursion. *)
Fixpoint apply_pending (dry_run : bool) (e : env) (applied_migrations : gset string)
    (migration_files : list string) (applied_count failed_count : nat)
    : M (nat * nat) :=
  match migration_files with
  | [] => mret (applied_count, failed_count)
  | migration_file :: rest =>
      let migration_id := extract_migration_id migration_file in
      if decide (migration_id ∈ applied_migrations) then
        print (Skipping migration_file) ;;
        apply_pending dry_run e applied_migrations rest applied_count failed_count
      else if dry_run then
        print (WouldApply migration_file) ;;
        apply_pending dry_run e applied_migrations rest (S applied_count) failed_count
      else
        ok ← apply_migration e migration_file ;
        if ok : bool then
          apply_pending dry_run e applied_migrations rest (S applied_count) failed_count
        else
          print Stopping ;;
          mret (applied_count, S failed_count)
  end.

(** Outcome of the [try] around [get_db_connection]: [except Exception]
    does not catch [SystemExit]. *)
Definition catch_exception {A} (body : M A) : M (exn + A) :=
  fun s => match body s with
           | (s', Ok a) => (s', Ok (inr a))
           | (s', Raise (SystemExit code)) => (s', Raise (SystemExit code))
           | (s', Raise ex) => (s', Ok (inl ex))
           end.

Definition run_migrations (dry_run : bool) (e : env) : M Z :=
  print Rule ;; print Title ;; print Rule ;;
  (if dry_run then print DryRunMode ;; print Blank else mret tt) ;;
  conn ← catch_exception (get_db_connection e ;; print Connected) ;
  match conn with
  | inl ex => print (FailedToConnect ex) ;; mret 1%Z
  | inr _ =>
      migration_files ← get_migration_files e ;
      match migration_files with
      | [] => print NoFilesFound ;; mret 0%Z
      | _ :: _ =>
          print (Found (length migration_files)) ;; print Blank ;;
          applied_migrations ← get_applied_migrations ;
          print (AlreadyApplied (size applied_migrations)) ;; print Blank ;;
          counts ← apply_pending dry_run e applied_migrations migration_files 0 0 ;
          let applied_count := fst counts in
          let failed_count := snd counts in
          print Blank ;; print Rule ;; print SummaryTitle ;; print Rule ;;
          (if dry_run then print (WouldApplyCount applied_count)
           else
             print (AppliedCount applied_count) ;;
             if Nat.ltb 0 failed_count then print (FailedCount failed_count)
             else mret tt) ;;
          close ;;
          mret (if Nat.eqb failed_count 0 then 0%Z else 1%Z)
      end
  end.

(** What [parser.parse_args()] makes of the command line. The parser
    knows the flag [--dry-run] and, as every [ArgumentParser], the help
    option: it returns the namespace, of which [dry_run] is the only
    attribute, or it prints the help and leaves through [sys.exit(0)],
    or it prints a usage error and leaves through [sys.exit(2)].  What
    argparse itself writes is not logged. *)
Inductive command_line :=
| Flags (dry_run : bool)
| Help
| Unrecognized.

Definition parse_args (argv : command_line) : M bool :=
  match argv with
  | Flags dry_run => mret dry_run
  | Help => raise (SystemExit 0)
  | Unrecognized => raise (SystemExit 2)
  end.

(** The status the process ends with. [sys.exit(code)] gives [code]; an
    exception that nobody catches ends the interpreter with status 1. *)
Definition exit_status (r : result Z) : Z :=
  match r with
  | Ok code => code
  | Raise (SystemExit code) => code
  | Raise _ => 1%Z
  end.

(** [main]: [exit_code] is handed to [sys.exit]. *)
Definition main (argv : command_line) (e : env) (s : state) : state * Z :=
  let (s', r) := (args ← parse_args argv ;
                  exit_code ← run_migrations args e ;
                  mret exit_code) s in
  (s', exit_status r).

End Runner.

Arguments Ok {E A} _.
Arguments Raise {E A} _.

(** ** Vocabulary of the properties *)

Section Vocabulary.
Context {E : Engine}.

(** How the loop disposes of one migration. *)
Inductive outcome :=
| SKIPPED_ALREADY_APPLIED
| WOULD_APPLY
| APPLIED
| FAILED.

(** The state with further events logged. *)
Definition push (s : state) (evs : list event) : state :=
  State (committed s) (txn s) (log s ++ evs).

(** Rows of the bookkeeping table, none when the table is absent. *)
Definition recorded (d : db) : gset string :=
  default ∅ (migrations_table d).

(** The four ways [apply_migration] can go, with the state each leaves:
    the file cannot be read; the script fails, and what it had made
    durable by then stays; the script commits but the record cannot be
    inserted; everything succeeds. *)
Inductive applied_as (e : env) (f : string) (s : state) : state -> bool -> Prop :=
| ap_unreadable err :
    read_file e f = inl err ->
    applied_as e f s
      (State (committed s) Idle
         (log s ++ [Print (Applying f); EvOpen f; EvRollback;
                    Print (UnexpectedError f err)]))
      false
| ap_script_failed sql d0 err :
    read_file e f = inr sql ->
    exec_result (Script sql) (committed s) (txn s) = (d0, inl err) ->
    applied_as e f s
      (State d0 Idle
         (log s ++ [Print (Applying f); EvOpen f;
                    EvExecuteFailed (Script sql) err; EvRollback;
                    Print (FailedToApply f err)]))
      false
| ap_mark_failed sql d0 d1 rows err :
    read_file e f = inr sql ->
    exec_result (Script sql) (committed s) (txn s) = (d0, inr (d1, rows)) ->
    (run_query (InsertMigration (extract_migration_id f)) d1 d1).2 = inl err ->
    applied_as e f s
      (State d1 Idle
         (log s ++ [Print (Applying f); EvOpen f; EvExecuted (Script sql);
                    EvCommit;
                    EvExecuteFailed (InsertMigration (extract_migration_id f)) err;
                    EvRollback; Print (FailedToApply f err)]))
      false
| ap_ok sql d0 d1 rows d2 rows' :
    read_file e f = inr sql ->
    exec_result (Script sql) (committed s) (txn s) = (d0, inr (d1, rows)) ->
    (run_query (InsertMigration (extract_migration_id f)) d1 d1).2 = inr (d2, rows') ->
    applied_as e f s
      (State d2 Idle
         (log s ++ [Print (Applying f); EvOpen f; EvExecuted (Script sql);
                    EvCommit;
                    EvExecuted (InsertMigration (extract_migration_id f));
                    EvCommit; Print (Success f)]))
      true.

(** One pass of the loop over the catalog: the migrations considered,
    in order, each with its outcome, and the state at the end. *)
Inductive loop_run (dry_run : bool) (e : env) (applied : gset string)
  : list string -> state -> list (string * outcome) -> state -> Prop :=
| loop_done s :
    loop_run dry_run e applied [] s [] s
| loop_skip f rest s os s' :
    extract_migration_id f ∈ applied ->
    loop_run dry_run e applied rest (push s [Print (Skipping f)]) os s' ->
    loop_run dry_run e applied (f :: rest) s ((f, SKIPPED_ALREADY_APPLIED) :: os) s'
| loop_would f rest s os s' :
    extract_migration_id f ∉ applied ->
    dry_run = true ->
    loop_run dry_run e applied rest (push s [Print (WouldApply f)]) os s' ->
    loop_run dry_run e applied (f :: rest) s ((f, WOULD_APPLY) :: os) s'
| loop_applied f rest s s1 os s' :
    extract_migration_id f ∉ applied ->
    dry_run = false ->
    applied_as e f s s1 true ->
    loop_run dry_run e applied rest s1 os s' ->
    loop_run dry_run e applied (f :: rest) s ((f, APPLIED) :: os) s'
| loop_failed f rest s s1 :
    extract_migration_id f ∉ applied ->
    dry_run = false ->
    applied_as e f s s1 false ->
    loop_run dry_run e applied (f :: rest) s [(f, FAILED)] (push s1 [Print Stopping]).

Definition counts_as_applied (o : outcome) : bool :=
  match o with
  | APPLIED | WOULD_APPLY => true
  | SKIPPED_ALREADY_APPLIED | FAILED => false
  end.

Definition is_failed (o : outcome) : bool :=
  match o with
  | FAILED => true
  | _ => false
  end.

Definition applied_total (os : list (string * outcome)) : nat :=
  length (filter (fun fo => counts_as_applied (snd fo) = true) os).

Definition failed_total (os : list (string * outcome)) : nat :=
  length (filter (fun fo => is_failed (snd fo) = true) os).

(** Identity whose record an event inserts, or tries to insert. *)
Definition insert_of (ev : event) : option string :=
  match ev with
  | EvExecuted (InsertMigration migration_id)
  | EvExecuteFailed (InsertMigration migration_id) _ => Some migration_id
  | _ => None
  end.

(** Script text an event runs, or tries to run. *)
Definition script_of (ev : event) : option string :=
  match ev with
  | EvExecuted (Script migration_sql)
  | EvExecuteFailed (Script migration_sql) _ => Some migration_sql
  | _ => None
  end.

(** Every insertion into the bookkeeping table comes right after the
    file of that identity was read, its text executed, and the
    transaction committed. *)
Definition marks_follow_commits (e : env) (l : list event) : Prop :=
  forall pre ev post migration_id,
    l = pre ++ ev :: post ->
    insert_of ev = Some migration_id ->
    exists pre' f sql,
      pre = pre' ++ [EvOpen f; EvExecuted (Script sql); EvCommit] /\
      extract_migration_id f = migration_id /\
      read_file e f = inr sql.

(** Every script execution comes right after its file was opened. *)
Definition scripts_follow_opens (e : env) (l : list event) : Prop :=
  forall pre ev post sql,
    l = pre ++ ev :: post ->
    script_of ev = Some sql ->
    exists pre' f, pre = pre' ++ [EvOpen f] /\ read_file e f = inr sql.


(** File names an event is about: the file it opens or the migration a
    printed line names. *)
Definition names_of (ev : event) : list string :=
  match ev with
  | EvOpen name => [name]
  | Print (Skipping name) | Print (WouldApply name) | Print (Applying name)
  | Print (Success name) | Print (FailedToApply name _)
  | Print (UnexpectedError name _) => [name]
  | _ => []
  end.

(** Events by which a script is run or a record inserted, or by which
    that is tried: what the runner does to the database beyond setting
    up and reading the bookkeeping table. *)
Definition touches_database (ev : event) : bool :=
  match ev with
  | EvExecuted (InsertMigration _) | EvExecuteFailed (InsertMigration _) _
  | EvExecuted (Script _) | EvExecuteFailed (Script _) _ => true
  | _ => false
  end.

(** Events by which a script file is read or run. *)
Definition reads_or_runs_script (ev : event) : bool :=
  match ev with
  | EvOpen _ | EvExecuted (Script _) | EvExecuteFailed (Script _) _ => true
  | _ => false
  end.

(** Lines that report a [FAILED] outcome. *)
Definition reports_failure (ev : event) : bool :=
  match ev with
  | Print (FailedToApply _ _) | Print (UnexpectedError _ _) => true
  | _ => false
  end.

(** Any statement sent to the server. *)
Definition is_query (ev : event) : bool :=
  match ev with
  | EvExecuted _ | EvExecuteFailed _ _ | EvCommit | EvRollback => true
  | _ => false
  end.


(** Statements that are transactional: by themselves they make nothing
    durable. *)
Definition transactional (st : stmt) : Prop :=
  forall d w, (exec_stmt st d w).1 = d.

(** Scripts made of transactional statements only: no [COMMIT] of their
    own, nothing that escapes the transaction. *)
Definition script_is_transactional (migration_sql : string) : Prop :=
  forall stmts, parse_sql migration_sql = inr stmts -> Forall transactional stmts.

(** [CREATE TABLE IF NOT EXISTS schema_migrations] on the contents. *)
Definition ensure_table (d : db) : db :=
  match migrations_table d with
  | Some _ => d
  | None => DbState (Some ∅) (user_schema d)
  end.

(** What a run logs before it looks at the catalog. *)
Definition banner (dry_run : bool) : list event :=
  [Print Rule; Print Title; Print Rule]
  ++ (if dry_run then [Print DryRunMode; Print Blank] else []).

(** What a run logs from the connection to the first migration. *)
Definition preamble (dry_run : bool) (found already : nat) : list event :=
  banner dry_run
  ++ [EvConnect; Print Connected; Print (Found found); Print Blank;
      EvExecuted CreateMigrationsTable; EvCommit;
      EvExecuted SelectMigrationIds;
      Print (AlreadyApplied already); Print Blank].

(** What a run logs after the loop. *)
Definition summary (dry_run : bool) (applied_count failed_count : nat) : list event :=
  [Print Blank; Print Rule; Print SummaryTitle; Print Rule]
  ++ (if dry_run then [Print (WouldApplyCount applied_count)]
      else Print (AppliedCount applied_count)
           :: (if Nat.ltb 0 failed_count then [Print (FailedCount failed_count)]
               else []))
  ++ [EvClose].

(** The state in which the loop starts: the bookkeeping table exists and
    the transaction opened by the SELECT is still open. *)
Definition loop_start (dry_run : bool) (found : nat) (s : state) : state :=
  State (ensure_table (committed s)) (InTxn (ensure_table (committed s)))
        (log s ++ preamble dry_run found (size (recorded (committed s)))).

(** The four ways a run can go: no connection; no migrations
    directory; no migration file; the loop over the catalog. *)
Inductive run_as (dry_run : bool) (e : env) (s : state) : state -> result Z -> Prop :=
| run_unreachable :
    db_reachable e = false ->
    run_as dry_run e s
      (push s (banner dry_run
               ++ [Print (ErrConnect OperationalError); Print ErrConnectDetails;
                   Print (FailedToConnect (Psycopg2Error OperationalError))]))
      (Ok 1%Z)
| run_no_directory :
    db_reachable e = true ->
    migrations_dir e = None ->
    run_as dry_run e s
      (State (committed s) Idle
         (log s ++ banner dry_run
          ++ [EvConnect; Print Connected; Print DirNotFound]))
      (Raise (SystemExit 1))
| run_nothing_found dir :
    db_reachable e = true ->
    migrations_dir e = Some dir ->
    list_sql dir = [] ->
    run_as dry_run e s
      (State (committed s) Idle
         (log s ++ banner dry_run
          ++ [EvConnect; Print Connected; Print NoFilesFound]))
      (Ok 0%Z)
| run_loop dir os s2 :
    db_reachable e = true ->
    migrations_dir e = Some dir ->
    list_sql dir <> [] ->
    loop_run dry_run e (recorded (committed s)) (list_sql dir)
      (loop_start dry_run (length (list_sql dir)) s) os s2 ->
    run_as dry_run e s
      (State (committed s2) Idle
         (log s2 ++ summary dry_run (applied_total os) (failed_total os)))
      (Ok (if Nat.eqb (failed_total os) 0 then 0%Z else 1%Z)).

(** Name of the migration a log line starts to consider. *)
Definition considered_name (ev : event) : option string :=
  match ev with
  | Print (Skipping name) | Print (WouldApply name) | Print (Applying name) =>
      Some name
  | _ => None
  end.

(** The migrations a log shows being considered, in order. *)
Definition considered (l : list event) : list string :=
  omap considered_name l.

(** A state with nothing pending: no transaction, or one that has not
    changed anything yet. *)
Definition settled (s : state) : Prop :=
  txn s = Idle \/ txn s = InTxn (committed s).

(** Events that concern no migration: they read no file, run no script,
    insert no record, and report nothing about a migration. *)
Definition quiet (ev : event) : bool :=
  match ev with
  | Print (Skipping _) | Print (WouldApply _) | Print (Applying _)
  | Print (Success _) | Print (FailedToApply _ _) | Print (UnexpectedError _ _)
  | EvOpen _
  | EvExecuted (InsertMigration _) | EvExecuted (Script _)
  | EvExecuteFailed (InsertMigration _) _ | EvExecuteFailed (Script _) _ => false
  | _ => true
  end.

(** The contents the next statement sees: the working contents of the
    open transaction, the committed ones otherwise. *)
Definition view (s : state) : db :=
  match txn s with
  | InTxn working => working
  | Idle | Aborted => committed s
  end.

(** Names of the files a log shows being opened, in order. *)
Definition opened (l : list event) : list string :=
  omap (fun ev => match ev with EvOpen name => Some name | _ => None end) l.

(** Names a dry run announces as "Would apply", in order. *)
Definition announced (l : list event) : list string :=
  omap (fun ev => match ev with Print (WouldApply name) => Some name | _ => None end) l.

(** The migrations of a catalog whose identity is not in the applied
    set, in catalog order. *)
Definition pending (applied : gset string) (files : list string) : list string :=
  filter (fun f => extract_migration_id f ∉ applied) files.

(** Names of the migrations a log reports as applied, in order. *)
Definition succeeded (l : list event) : list string :=
  omap (fun ev => match ev with Print (Success name) => Some name | _ => None end) l.

(** The count lines of the summary that a log holds, in order. *)
Definition totals_printed (l : list event) : list line :=
  omap (fun ev =>
          match ev with
          | Print (WouldApplyCount n) => Some (WouldApplyCount n)
          | Print (AppliedCount n) => Some (AppliedCount n)
          | Print (FailedCount n) => Some (FailedCount n)
          | _ => None
          end) l.

End Vocabulary.

(** ** A small engine to run the model on

    Scripts are [;]-separated statements: [+x] creates the object [x]
    (an error if it exists), [-x] drops it (an error if it does not
    exist), [COMMIT] makes durable what the transaction has done so far
    and [ROLLBACK] undoes it; any other statement is a syntax error,
    found when the script is parsed. *)
Module Toy.

Inductive toy_stmt :=
| Create (obj : string)
| Drop (obj : string)
| Commit
| Rollback.

Inductive toy_error :=
| SyntaxError
| DuplicateObject (obj : string)
| UndefinedObject (obj : string).

(** Pieces between semicolons; [acc] is the piece being read. *)
Fixpoint split_semi (acc : string) (text : string) : list string :=
  match text with
  | EmptyString => if String.eqb acc "" then [] else [acc]
  | String c rest =>
      if Ascii.eqb c ";"%char
      then (if String.eqb acc "" then [] else [acc]) ++ split_semi "" rest
      else split_semi (acc +:+ String c "") rest
  end.

Definition parse_stmt (piece : string) : toy_error + toy_stmt :=
  if String.eqb piece "COMMIT" then inr Commit
  else if String.eqb piece "ROLLBACK" then inr Rollback
  else
    match piece with
    | String c obj =>
        if Ascii.eqb c "+"%char then inr (Create obj)
        else if Ascii.eqb c "-"%char then inr (Drop obj)
        else inl SyntaxError
    | EmptyString => inl SyntaxError
    end.

Fixpoint parse_pieces (pieces : list string) : toy_error + list toy_stmt :=
  match pieces with
  | [] => inr []
  | p :: rest =>
      match parse_stmt p, parse_pieces rest with
      | inr st, inr sts => inr (st :: sts)
      | inl e, _ => inl e
      | _, inl e => inl e
      end
  end.

Definition toy_parse (text : string) : toy_error + list toy_stmt :=
  parse_pieces (split_semi "" text).

Definition toy_exec (st : toy_stmt) (d w : db_state (gset string))
    : db_state (gset string) * (toy_error + db_state (gset string)) :=
  match st with
  | Create obj =>
      if decide (obj ∈ user_schema w) then (d, inl (DuplicateObject obj))
      else (d, inr (DbState (migrations_table w) ({[obj]} ∪ user_schema w)))
  | Drop obj =>
      if decide (obj ∈ user_schema w)
      then (d, inr (DbState (migrations_table w) (user_schema w ∖ {[obj]})))
      else (d, inl (UndefinedObject obj))
  | Commit => (w, inr w)
  | Rollback => (d, inr d)
  end.

#[global] Instance toy_engine : Engine := {|
  stmt := toy_stmt;
  schema := gset string;
  pg_error := toy_error;
  parse_sql := toy_parse;
  exec_stmt := toy_exec
|}.

(** A database on which nothing was ever run. *)
Definition fresh : state := State (DbState None ∅) Idle [].

(** A database on which [001_a.sql] was applied. *)
Definition with_a : state :=
  State (DbState (Some {[ "001_a" ]}) {[ "a" ]}) Idle [].


(** [001_a.sql] creates [a]; [002_b.sql] creates [b] and then [a] again. *)
Definition dir_ab : gmap string file :=
  {[ "001_a.sql" := Readable "+a"; "002_b.sql" := Readable "+b;+a";
     "README.md" := Readable "notes" ]}.

(** Two scripts that apply cleanly. *)
Definition dir_ok : gmap string file :=
  {[ "001_a.sql" := Readable "+a"; "002_b.sql" := Readable "+b" ]}.

(** The second of three scripts cannot be read. *)
Definition dir_unreadable : gmap string file :=
  {[ "001_a.sql" := Readable "+a"; "002_b.sql" := Unreadable PermissionError;
     "003_c.sql" := Readable "+c" ]}.

(** A directory without any [.sql] file. *)
Definition dir_empty : gmap string file :=
  {[ "README.md" := Readable "notes" ]}.

(** [002_b.sql] creates [b], commits, and then creates [a] again. *)
Definition dir_commit : gmap string file :=
  {[ "001_a.sql" := Readable "+a"; "002_b.sql" := Readable "+b;COMMIT;+a" ]}.


Definition env_ab : env := Env true (Some dir_ab).
Definition env_ok : env := Env true (Some dir_ok).
Definition env_unreadable : env := Env true (Some dir_unreadable).
Definition env_empty : env := Env true (Some dir_empty).
Definition env_commit : env := Env true (Some dir_commit).

(** The same directories with a database that cannot be reached. *)
Definition env_ok_offline : env := Env false (Some dir_ok).
Definition env_empty_offline : env := Env false (Some dir_empty).

End Toy.

(** ** An engine whose scripts can reach the bookkeeping table

    A script is a single statement: the text
    [DROP TABLE schema_migrations] drops the bookkeeping table and a
    text [!x] inserts the row [x] into it (an error if the table is
    absent); any other text creates an object of that name. *)
Module Wild.

Inductive wild_stmt :=
| Touch (obj : string)
| DropBookkeeping
| InsertRow (migration_id : string).

Inductive wild_error :=
| NoSuchTable.

Definition wild_parse (text : string) : wild_error + list wild_stmt :=
  if String.eqb text "DROP TABLE schema_migrations"
  then inr [DropBookkeeping]
  else
    match text with
    | String c migration_id =>
        if Ascii.eqb c "!"%char then inr [InsertRow migration_id]
        else inr [Touch text]
    | EmptyString => inr [Touch text]
    end.

Definition wild_exec (st : wild_stmt) (d w : db_state (gset string))
    : db_state (gset string) * (wild_error + db_state (gset string)) :=
  match st with
  | Touch obj => (d, inr (DbState (migrations_table w) ({[obj]} ∪ user_schema w)))
  | DropBookkeeping =>
      match migrations_table w with
      | Some _ => (d, inr (DbState None (user_schema w)))
      | None => (d, inl NoSuchTable)
      end
  | InsertRow migration_id =>
      match migrations_table w with
      | Some rows =>
          (d, inr (DbState (Some ({[migration_id]} ∪ rows)) (user_schema w)))
      | None => (d, inl NoSuchTable)
      end
  end.

Definition engine : Engine := {|
  stmt := wild_stmt;
  schema := gset string;
  pg_error := wild_error;
  parse_sql := wild_parse;
  exec_stmt := wild_exec
|}.

(** A directory whose only script drops the bookkeeping table. *)
Definition dir_drop : gmap string file :=
  {[ "001_drop.sql" := Readable "DROP TABLE schema_migrations" ]}.

Definition env_drop : env := Env true (Some dir_drop).



(** A database with an empty bookkeeping table, on a new connection. *)
Definition ready : @state engine :=
  @State engine (DbState (Some ∅) ∅) (@Idle engine) [].

End Wild.

(** * Properties *)

(** ** File names: stem, extension, order *)

Module FilenameFacts.
Import Filename.

Lemma length_app (a b : string) :
  String.length (a +:+ b) = String.length a + String.length b.
Proof. induction a as [|c a IH]; simpl; [reflexivity | now rewrite IH]. Qed.

Lemma substring_prefix_app (a b : string) :
  String.substring 0 (String.length a) (a +:+ b) = a.
Proof.
  induction a as [|c a IH]; simpl.
  - now destruct b.
  - now rewrite IH.
Qed.

Lemma substring_whole (b : string) :
  String.substring 0 (String.length b) b = b.
Proof. induction b as [|c b IH]; simpl; [reflexivity | now rewrite IH]. Qed.

Lemma substring_suffix_app (a b : string) :
  String.substring (String.length a) (String.length b) (a +:+ b) = b.
Proof.
  induction a as [|c a IH]; simpl; [apply substring_whole | exact IH].
Qed.

Lemma substring_split (i : nat) (s : string) :
  i <= String.length s ->
  String.substring 0 i s +:+ String.substring i (String.length s - i) s = s.
Proof.
  revert i; induction s as [|c s IH]; intros i Hi.
  - destruct i; simpl in *; [reflexivity | lia].
  - destruct i as [|i].
    + rewrite Nat.sub_0_r, substring_whole. reflexivity.
    + simpl in Hi. simpl String.substring. simpl String.length.
      change (String c (String.substring 0 i s +:+
                String.substring i (String.length s - i) s) = String c s).
      f_equal. apply IH. lia.
Qed.

Lemma rfind_dot_sql (base : string) :
  rfind_dot (base +:+ ".sql") = Some (String.length base).
Proof.
  induction base as [|c base IH]; simpl; [reflexivity | now rewrite IH].
Qed.

Lemma rfind_dot_lt (name : string) (i : nat) :
  rfind_dot name = Some i -> i < String.length name.
Proof.
  revert i; induction name as [|c name IH]; simpl; intros i; [discriminate|].
  destruct (rfind_dot name) as [j|].
  - intros [= <-]. specialize (IH j eq_refl). lia.
  - destruct (Ascii.eqb c "."); intros [= <-]; lia.
Qed.

Lemma app_empty_r (a : string) : a +:+ "" = a.
Proof.
  induction a as [|c a IH]; [reflexivity|].
  change (String c (a +:+ "") = String c a). now rewrite IH.
Qed.

(** A name is its stem followed by its extension. *)
Lemma stem_suffix (name : string) : stem name +:+ suffix name = name.
Proof.
  unfold stem, suffix.
  destruct (rfind_dot name) as [i|] eqn:Hi.
  - apply rfind_dot_lt in Hi.
    destruct (Nat.ltb 0 i && Nat.ltb i (String.length name - 1)).
    + apply substring_split. lia.
    + apply app_empty_r.
  - apply app_empty_r.
Qed.

Lemma stem_sql (base : string) :
  base <> "" -> stem (base +:+ ".sql") = base.
Proof.
  intros Hne. unfold stem. rewrite rfind_dot_sql, length_app.
  assert (0 < String.length base) by (destruct base; simpl; [congruence | lia]).
  replace (Nat.ltb 0 (String.length base)) with true
    by (symmetry; apply Nat.ltb_lt; lia).
  replace (Nat.ltb (String.length base) (String.length base + String.length ".sql" - 1))
    with true by (symmetry; apply Nat.ltb_lt; simpl; lia).
  apply substring_prefix_app.
Qed.

Lemma matches_sql_spec (name : string) :
  matches_sql name = true <-> exists base, name = base +:+ ".sql".
Proof.
  unfold matches_sql. split.
  - intros H. apply andb_true_iff in H as [Hlen Hsuf].
    apply Nat.leb_le in Hlen. apply String.eqb_eq in Hsuf.
    exists (String.substring 0 (String.length name - 4) name).
    rewrite <- Hsuf.
    pose proof (substring_split (String.length name - 4) name ltac:(lia)) as Hs.
    replace (String.length name - (String.length name - 4)) with 4 in Hs by lia.
    now symmetry.
  - intros [base ->]. rewrite length_app. simpl String.length.
    apply andb_true_iff. split; [apply Nat.leb_le; lia|].
    replace (String.length base + 4 - 4) with (String.length base) by lia.
    apply String.eqb_eq. exact (substring_suffix_app base ".sql").
Qed.

Lemma compare_not_gt_trans (a b c : string) :
  String.compare a b <> Gt -> String.compare b c <> Gt ->
  String.compare a c <> Gt.
Proof.
  revert b c; induction a as [|x a IH]; intros [|y b] [|z c]; simpl;
    try congruence.
  unfold Ascii.compare.
  destruct (N.compare_spec (Ascii.N_of_ascii x) (Ascii.N_of_ascii y)),
           (N.compare_spec (Ascii.N_of_ascii y) (Ascii.N_of_ascii z)),
           (N.compare_spec (Ascii.N_of_ascii x) (Ascii.N_of_ascii z));
    try congruence; try lia; eauto.
Qed.

Lemma leb_not_gt (a b : string) : String.leb a b = true <-> String.compare a b <> Gt.
Proof. unfold String.leb. destruct (String.compare a b); split; congruence. Qed.

#[global] Instance name_le_trans : Transitive name_le.
Proof.
  intros a b c. unfold name_le. rewrite !leb_not_gt.
  apply compare_not_gt_trans.
Qed.

#[global] Instance name_le_total : Total name_le.
Proof. intros a b. apply String.leb_total. Qed.

#[global] Instance name_le_antisym : AntiSymm (=) name_le.
Proof. intros a b. apply String.leb_antisym. Qed.

End FilenameFacts.

(** ** The catalog *)

Module CatalogFacts.
Import Filename FilenameFacts.

Lemma elem_of_list_sql (dir : gmap string file) (name : string) :
  name ∈ list_sql dir <-> is_Some (dir !! name) /\ matches_sql name = true.
Proof.
  unfold list_sql. rewrite merge_sort_Permutation, list_elem_of_filter.
  rewrite list_elem_of_fmap. split.
  - intros [Hm ([k v] & -> & Hin)]. apply elem_of_map_to_list in Hin.
    simpl in *. split; [eauto | exact Hm].
  - intros [[v Hv] Hm]. split; [exact Hm|].
    exists (name, v). split; [reflexivity|]. now apply elem_of_map_to_list.
Qed.

Lemma NoDup_list_sql (dir : gmap string file) : NoDup (list_sql dir).
Proof.
  unfold list_sql. rewrite merge_sort_Permutation.
  apply NoDup_filter, NoDup_fst_map_to_list.
Qed.

Lemma StronglySorted_list_sql (dir : gmap string file) :
  StronglySorted name_le (list_sql dir).
Proof. unfold list_sql. apply StronglySorted_merge_sort; apply _. Qed.

(** Whatever order the directory is scanned in and whatever sorting
    algorithm is used, the sorted listing is this one. *)
Lemma list_sql_unique (dir : gmap string file) (l : list string) :
  StronglySorted name_le l ->
  l ≡ₚ filter (fun name => matches_sql name = true) (map_to_list dir).*1 ->
  l = list_sql dir.
Proof.
  intros Hs Hp. apply (StronglySorted_unique name_le); try assumption.
  - apply StronglySorted_list_sql.
  - unfold list_sql. now rewrite merge_sort_Permutation.
Qed.

End CatalogFacts.

(** ** The runner *)

Section RunnerFacts.
Context {E : Engine}.

Ltac unfold_m :=
  unfold mbind, M_bind, mret, M_ret, bind, ret, raise, print, emit,
    try_except, catch_exception in *.

#[local] Arguments run_query : simpl never.

(** The runner's own statements make nothing durable by themselves. *)
Lemma run_query_durable (q : query) (d w : db) :
  (forall sql, q <> Script sql) -> (run_query q d w).1 = d.
Proof.
  intros Hq. destruct q as [| |migration_id|sql]; unfold run_query.
  - now destruct (migrations_table w).
  - now destruct (migrations_table w).
  - destruct (migrations_table w); [|reflexivity]. now destruct (Nat.ltb _ _).
  - now destruct (Hq sql).
Qed.

Lemma run_query_insert (migration_id : string) (d w : db) :
  run_query (InsertMigration migration_id) d w
  = (d, (run_query (InsertMigration migration_id) d w).2).
Proof.
  rewrite <- (run_query_durable (InsertMigration migration_id) d w) at 2
    by discriminate.
  apply surjective_pairing.
Qed.

Lemma apply_migration_spec (e : env) (f : string) (s : state) :
  exists s' b, apply_migration e f s = (s', Ok b) /\ applied_as e f s s' b.
Proof.
  unfold apply_migration, open_read, mark_migration_applied, cursor_execute,
    commit, rollback. unfold_m. simpl.
  destruct (read_file e f) as [err|sql] eqn:Hread; simpl.
  - eexists _, false. split; [reflexivity|].
    rewrite <- !app_assoc. simpl. now apply ap_unreadable.
  - destruct (exec_result (Script sql) (committed s) (txn s))
      as [d0 [err|[d1 rows]]] eqn:Hexec; simpl.
    + eexists _, false. split; [reflexivity|].
      rewrite <- !app_assoc. simpl. eapply ap_script_failed; eassumption.
    + rewrite run_query_insert.
      destruct (run_query (InsertMigration (extract_migration_id f)) d1 d1).2
        as [err|[d2 rows']] eqn:Hins; simpl.
      * eexists _, false. split; [reflexivity|].
        rewrite <- !app_assoc. simpl. eapply ap_mark_failed; eassumption.
      * eexists _, true. split; [reflexivity|].
        rewrite <- !app_assoc. simpl. eapply ap_ok; eassumption.
Qed.

Lemma applied_total_cons (f : string) (o : outcome) (os : list (string * outcome)) :
  applied_total ((f, o) :: os)
  = (if counts_as_applied o then 1 else 0) + applied_total os.
Proof.
  unfold applied_total. now destruct o.
Qed.

Lemma failed_total_cons (f : string) (o : outcome) (os : list (string * outcome)) :
  failed_total ((f, o) :: os)
  = (if is_failed o then 1 else 0) + failed_total os.
Proof.
  unfold failed_total. now destruct o.
Qed.

Lemma apply_pending_spec (dry_run : bool) (e : env) (applied : gset string)
    (files : list string) :
  forall (a fc : nat) (s : state),
  exists os s',
    apply_pending dry_run e applied files a fc s
      = (s', Ok (a + applied_total os, fc + failed_total os)) /\
    loop_run dry_run e applied files s os s'.
Proof.
  induction files as [|f rest IH]; intros a fc s; simpl.
  - exists [], s. split; [|constructor].
    unfold applied_total, failed_total; simpl. unfold_m.
    now rewrite !Nat.add_0_r.
  - destruct (decide (extract_migration_id f ∈ applied)) as [Hin|Hout].
    + destruct (IH a fc (push s [Print (Skipping f)])) as (os & s' & Heq & Hrun).
      exists ((f, SKIPPED_ALREADY_APPLIED) :: os), s'. split.
      * rewrite applied_total_cons, failed_total_cons. exact Heq.
      * now constructor.
    + destruct dry_run eqn:Hdry.
      * destruct (IH (S a) fc (push s [Print (WouldApply f)]))
          as (os & s' & Heq & Hrun).
        exists ((f, WOULD_APPLY) :: os), s'. split.
        -- rewrite applied_total_cons, failed_total_cons. simpl counts_as_applied.
           simpl is_failed. cbv iota.
           replace (a + (1 + applied_total os)) with (S a + applied_total os) by lia.
           exact Heq.
        -- now constructor.
      * destruct (apply_migration_spec e f s) as (s1 & b & Happ & Has).
        unfold_m. rewrite Happ. destruct b.
        -- destruct (IH (S a) fc s1) as (os & s' & Heq & Hrun).
           exists ((f, APPLIED) :: os), s'. split.
           ++ rewrite applied_total_cons, failed_total_cons. simpl counts_as_applied.
              simpl is_failed. cbv iota.
              replace (a + (1 + applied_total os)) with (S a + applied_total os) by lia.
              exact Heq.
           ++ eapply loop_applied; eauto.
        -- exists [(f, FAILED)], (push s1 [Print Stopping]). split.
           ++ rewrite applied_total_cons, failed_total_cons. simpl.
              unfold push, applied_total, failed_total. simpl.
              do 3 f_equal; lia.
           ++ eapply loop_failed; eauto.
Qed.

Lemma recorded_ensure_table (d : db) : recorded (ensure_table d) = recorded d.
Proof.
  unfold recorded, ensure_table.
  destruct (migrations_table d) eqn:Hd; simpl; [now rewrite Hd | reflexivity].
Qed.

Lemma user_schema_ensure_table (d : db) :
  user_schema (ensure_table d) = user_schema d.
Proof. unfold ensure_table. now destruct (migrations_table d) eqn:Hd. Qed.

Lemma get_applied_migrations_spec (d : db) (l : list event) :
  get_applied_migrations (State d Idle l)
  = (State (ensure_table d) (InTxn (ensure_table d))
       (l ++ [EvExecuted CreateMigrationsTable; EvCommit;
              EvExecuted SelectMigrationIds]),
     Ok (recorded d)).
Proof.
  unfold get_applied_migrations, create_migrations_table, cursor_execute, commit.
  unfold_m. unfold exec_result, run_query, recorded, ensure_table. simpl.
  destruct (migrations_table d) as [rows|] eqn:Hrows; simpl.
  - rewrite Hrows. simpl. rewrite <- !app_assoc. simpl.
    now rewrite list_to_set_elements_L.
  - rewrite <- !app_assoc. simpl. now rewrite elements_empty.
Qed.

Lemma run_migrations_unreachable (dry_run : bool) (e : env) (s : state) :
  db_reachable e = false ->
  run_migrations dry_run e s
  = (push s (banner dry_run
             ++ [Print (ErrConnect OperationalError); Print ErrConnectDetails;
                 Print (FailedToConnect (Psycopg2Error OperationalError))]),
     Ok 1%Z).
Proof.
  intros Hdb. unfold run_migrations, get_db_connection, connect, banner, push.
  unfold_m. destruct dry_run; simpl; rewrite Hdb; simpl;
    rewrite <- !app_assoc; reflexivity.
Qed.

Lemma run_migrations_no_directory (dry_run : bool) (e : env) (s : state) :
  db_reachable e = true ->
  migrations_dir e = None ->
  run_migrations dry_run e s
  = (State (committed s) Idle
       (log s ++ banner dry_run ++ [EvConnect; Print Connected; Print DirNotFound]),
     Raise (SystemExit 1)).
Proof.
  intros Hdb Hdir.
  unfold run_migrations, get_db_connection, get_migration_files, connect, banner.
  unfold_m. destruct dry_run; simpl; rewrite Hdb, Hdir; simpl;
    rewrite <- !app_assoc; reflexivity.
Qed.

Lemma run_migrations_nothing_found (dry_run : bool) (e : env) (s : state)
    (dir : gmap string file) :
  db_reachable e = true ->
  migrations_dir e = Some dir ->
  list_sql dir = [] ->
  run_migrations dry_run e s
  = (State (committed s) Idle
       (log s ++ banner dry_run ++ [EvConnect; Print Connected; Print NoFilesFound]),
     Ok 0%Z).
Proof.
  intros Hdb Hdir Hnil.
  unfold run_migrations, get_db_connection, get_migration_files, connect, banner.
  unfold_m. destruct dry_run; simpl; rewrite Hdb, Hdir, Hnil; simpl;
    rewrite <- !app_assoc; reflexivity.
Qed.

Lemma run_migrations_loop (dry_run : bool) (e : env) (s : state)
    (dir : gmap string file) :
  db_reachable e = true ->
  migrations_dir e = Some dir ->
  list_sql dir <> [] ->
  exists os s2,
    loop_run dry_run e (recorded (committed s)) (list_sql dir)
      (loop_start dry_run (length (list_sql dir)) s) os s2 /\
    run_migrations dry_run e s
    = (State (committed s2) Idle
         (log s2 ++ summary dry_run (applied_total os) (failed_total os)),
       Ok (if Nat.eqb (failed_total os) 0 then 0%Z else 1%Z)).
Proof.
  intros Hdb Hdir Hne.
  destruct (apply_pending_spec dry_run e (recorded (committed s)) (list_sql dir)
              0 0 (loop_start dry_run (length (list_sql dir)) s))
    as (os & s2 & Heq & Hrun).
  exists os, s2. split; [exact Hrun|].
  unfold run_migrations, get_db_connection, get_migration_files, connect.
  unfold_m. unfold loop_start, preamble, banner, summary in *.
  destruct (list_sql dir) as [|f0 files] eqn:Hfiles; [congruence|].
  destruct dry_run; simpl; rewrite Hdb, Hdir, Hfiles; simpl;
    rewrite get_applied_migrations_spec; simpl.
  all: rewrite <- !app_assoc in *; simpl in *.
  all: unfold close; rewrite Heq; simpl.
  all: try (destruct (failed_total os) as [|n]; simpl).
  all: rewrite <- ?app_assoc; simpl; reflexivity.
Qed.

(** *** Logs *)

Lemma app_eq_cons_split {A} (l1 l2 pre post : list A) (x : A) :
  l1 ++ l2 = pre ++ x :: post ->
  (exists post1, l1 = pre ++ x :: post1 /\ post = post1 ++ l2) \/
  (exists pre2, pre = l1 ++ pre2 /\ l2 = pre2 ++ x :: post).
Proof.
  revert pre; induction l1 as [|y l1 IH]; intros pre Heq; simpl in *.
  - right. now exists pre.
  - destruct pre as [|z pre]; simpl in *; injection Heq as -> Heq.
    + left. now exists l1.
    + destruct (IH _ Heq) as [(post1 & -> & ->)|(pre2 & -> & ->)].
      * left. now exists post1.
      * right. now exists pre2.
Qed.

Lemma marks_follow_commits_nil (e : env) : marks_follow_commits e [].
Proof. intros [|? pre] ev post id Heq; discriminate. Qed.

Lemma marks_follow_commits_app (e : env) (l1 l2 : list event) :
  marks_follow_commits e l1 -> marks_follow_commits e l2 ->
  marks_follow_commits e (l1 ++ l2).
Proof.
  intros H1 H2 pre ev post id Heq Hins.
  apply app_eq_cons_split in Heq as [(post1 & -> & ->)|(pre2 & -> & ->)].
  - eapply H1; eauto.
  - destruct (H2 _ _ _ _ eq_refl Hins) as (pre' & f & sql & -> & Hid & Hread).
    exists (l1 ++ pre'), f, sql. now rewrite app_assoc.
Qed.

Lemma scripts_follow_opens_nil (e : env) : scripts_follow_opens e [].
Proof. intros [|? pre] ev post sql Heq; discriminate. Qed.

Lemma scripts_follow_opens_app (e : env) (l1 l2 : list event) :
  scripts_follow_opens e l1 -> scripts_follow_opens e l2 ->
  scripts_follow_opens e (l1 ++ l2).
Proof.
  intros H1 H2 pre ev post sql Heq Hs.
  apply app_eq_cons_split in Heq as [(post1 & -> & ->)|(pre2 & -> & ->)].
  - eapply H1; eauto.
  - destruct (H2 _ _ _ _ eq_refl Hs) as (pre' & f & -> & Hread).
    exists (l1 ++ pre'), f. now rewrite app_assoc.
Qed.

(** Case analysis on the position of an event in an explicit log. *)
Ltac positions :=
  repeat match goal with
         | H : _ :: _ = ?pre ++ _ :: _ |- _ =>
             destruct pre; simpl in H; simplify_eq
         | H : [] = ?pre ++ _ :: _ |- _ => destruct pre; discriminate H
         end.

(** The log any single [apply_migration] adds obeys both disciplines. *)
Lemma applied_as_log (e : env) (f : string) (s s1 : state) (b : bool) :
  applied_as e f s s1 b ->
  exists delta,
    log s1 = log s ++ delta /\
    marks_follow_commits e delta /\
    scripts_follow_opens e delta /\
    Forall (fun ev => names_of ev ⊆ [f]) delta /\
    length (filter (fun ev => reports_failure ev = true) delta)
      = (if b then 0 else 1) /\
    considered delta = [f].
Proof.
  intros Has. inversion Has; subst; simpl; eexists; (split; [reflexivity|]).
  all: split; [|split; [|split; [|split; reflexivity]]].
  all: try (intros pre ev post x Heq Hx; positions; simpl in Hx;
            try discriminate; simplify_eq).
  all: try (repeat (apply Forall_cons; split;
                    [simpl; first [ intros ? Hx; exact Hx
                                  | intros ? Hx; inversion Hx ]|]);
            apply Forall_nil; exact I).
  all: solve
    [ exists [Print (Applying f)]; eexists _, _;
      split; [reflexivity | split; [reflexivity | eassumption]]
    | exists [Print (Applying f)]; eexists;
      split; [reflexivity | eassumption] ].
Qed.

Lemma marks_follow_commits_print (e : env) (l : line) :
  marks_follow_commits e [Print l].
Proof. intros pre ev post x Heq Hx. positions; discriminate. Qed.

Lemma scripts_follow_opens_print (e : env) (l : line) :
  scripts_follow_opens e [Print l].
Proof. intros pre ev post x Heq Hx. positions; discriminate. Qed.

Lemma failed_total_le (dry_run : bool) (e : env) (applied : gset string)
    (files : list string) (s s' : state) (os : list (string * outcome)) :
  loop_run dry_run e applied files s os s' -> failed_total os <= 1.
Proof.
  induction 1; rewrite ?failed_total_cons; simpl; try lia.
  all: unfold failed_total; simpl; lia.
Qed.

Lemma names_head (f : string) (l : list string) : [f] ⊆ f :: l.
Proof. intros x Hx. apply list_elem_of_singleton in Hx as ->. apply elem_of_cons. now left. Qed.

Lemma names_tail (f : string) (l k : list string) : k ⊆ l -> k ⊆ f :: l.
Proof. intros Hk x Hx. apply elem_of_cons. right. now apply Hk. Qed.

(** The log a pass of the loop adds. *)
Lemma loop_run_log (dry_run : bool) (e : env) (applied : gset string)
    (files : list string) (s s' : state) (os : list (string * outcome)) :
  loop_run dry_run e applied files s os s' ->
  exists delta,
    log s' = log s ++ delta /\
    marks_follow_commits e delta /\
    scripts_follow_opens e delta /\
    Forall (fun ev => names_of ev ⊆ os.*1) delta /\
    length (filter (fun ev => reports_failure ev = true) delta) = failed_total os /\
    considered delta = os.*1.
Proof.
  induction 1 as [s|f rest s os s' Hin Hrun IH|f rest s os s' Hout Hdry Hrun IH
                 |f rest s s1 os s' Hout Hdry Has Hrun IH|f rest s s1 Hout Hdry Has].
  - exists []. rewrite app_nil_r. repeat split.
    + apply marks_follow_commits_nil.
    + apply scripts_follow_opens_nil.
    + constructor.
  - destruct IH as (delta & Hlog & Hm & Hs & Hn & Hf & Hc).
    exists (Print (Skipping f) :: delta). simpl in Hlog. rewrite <- app_assoc in Hlog.
    rewrite failed_total_cons. simpl. repeat split; try assumption.
    + apply (marks_follow_commits_app e [_]); [apply marks_follow_commits_print | exact Hm].
    + apply (scripts_follow_opens_app e [_]); [apply scripts_follow_opens_print | exact Hs].
    + constructor; [simpl; apply names_head|].
      eapply Forall_impl; [exact Hn|]. intros ev Hev. now apply names_tail.
    + unfold considered in *. simpl. now rewrite Hc.
  - destruct IH as (delta & Hlog & Hm & Hs & Hn & Hf & Hc).
    exists (Print (WouldApply f) :: delta). simpl in Hlog. rewrite <- app_assoc in Hlog.
    rewrite failed_total_cons. simpl. repeat split; try assumption.
    + apply (marks_follow_commits_app e [_]); [apply marks_follow_commits_print | exact Hm].
    + apply (scripts_follow_opens_app e [_]); [apply scripts_follow_opens_print | exact Hs].
    + constructor; [simpl; apply names_head|].
      eapply Forall_impl; [exact Hn|]. intros ev Hev. now apply names_tail.
    + unfold considered in *. simpl. now rewrite Hc.
  - destruct IH as (delta & Hlog & Hm & Hs & Hn & Hf & Hc).
    destruct (applied_as_log _ _ _ _ _ Has) as (d1 & Hlog1 & Hm1 & Hs1 & Hn1 & Hf1 & Hc1).
    exists (d1 ++ delta). rewrite Hlog, Hlog1, <- app_assoc.
    rewrite failed_total_cons, filter_app, length_app, Hf, Hf1. simpl.
    repeat split.
    + now apply marks_follow_commits_app.
    + now apply scripts_follow_opens_app.
    + apply Forall_app. split.
      * eapply Forall_impl; [exact Hn1|]. intros ev Hev x Hx. simpl.
        apply Hev, list_elem_of_singleton in Hx as ->. apply elem_of_cons. now left.
      * eapply Forall_impl; [exact Hn|]. intros ev Hev. now apply names_tail.
    + unfold considered in *. now rewrite omap_app, Hc, Hc1.
  - destruct (applied_as_log _ _ _ _ _ Has) as (d1 & Hlog1 & Hm1 & Hs1 & Hn1 & Hf1 & Hc1).
    exists (d1 ++ [Print Stopping]). simpl. rewrite Hlog1, <- app_assoc.
    rewrite filter_app, length_app, Hf1. repeat split.
    + apply marks_follow_commits_app; [exact Hm1 | apply marks_follow_commits_print].
    + apply scripts_follow_opens_app; [exact Hs1 | apply scripts_follow_opens_print].
    + apply Forall_app. split; [exact Hn1|].
      constructor; [intros x Hx; inversion Hx | constructor].
    + unfold considered in *. now rewrite omap_app, Hc1.
Qed.

Lemma run_migrations_as (dry_run : bool) (e : env) (s : state) :
  exists s' r, run_migrations dry_run e s = (s', r) /\ run_as dry_run e s s' r.
Proof.
  destruct (db_reachable e) eqn:Hdb.
  - destruct (migrations_dir e) as [dir|] eqn:Hdir.
    + destruct (list_sql dir) as [|f0 fs] eqn:Hfiles.
      * eexists _, _. split.
        -- now apply (run_migrations_nothing_found dry_run e s dir).
        -- now apply (run_nothing_found dry_run e s dir).
      * destruct (run_migrations_loop dry_run e s dir Hdb Hdir) as (os & s2 & Hrun & Heq);
          [rewrite Hfiles; discriminate|].
        eexists _, _. split; [exact Heq|].
        apply (run_loop dry_run e s dir); try assumption.
        rewrite Hfiles; discriminate.
    + eexists _, _. split.
      * now apply run_migrations_no_directory.
      * now apply run_no_directory.
  - eexists _, _. split.
    + now apply run_migrations_unreachable.
    + now apply run_unreachable.
Qed.

(** The log a run adds, for a run that enters the loop. *)
Lemma run_loop_log (dry_run : bool) (found : nat) (s s2 : state)
    (delta : list event) (a fc : nat) :
  log s2 = log (loop_start dry_run found s) ++ delta ->
  log s2 ++ summary dry_run a fc
  = log s ++ (preamble dry_run found (size (recorded (committed s)))
              ++ delta ++ summary dry_run a fc).
Proof. intros ->. unfold loop_start. cbn [log]. now rewrite <- !app_assoc. Qed.

(** *** Outcomes *)

(** The migrations considered are an initial segment of the catalog,
    the whole catalog unless one failed, and a failure comes last. *)
Lemma loop_run_outcomes (dry_run : bool) (e : env) (applied : gset string)
    (files : list string) (s s' : state) (os : list (string * outcome)) :
  loop_run dry_run e applied files s os s' ->
  (exists post, files = os.*1 ++ post /\ (failed_total os = 0 -> post = [])) /\
  Forall (fun fo =>
            (snd fo = SKIPPED_ALREADY_APPLIED <->
             extract_migration_id (fst fo) ∈ applied) /\
            (snd fo = WOULD_APPLY -> dry_run = true) /\
            (snd fo = APPLIED \/ snd fo = FAILED -> dry_run = false)) os /\
  (forall os1 f os2, os = os1 ++ (f, FAILED) :: os2 -> os2 = []).
Proof.
  induction 1 as [s|f rest s os s' Hin Hrun IH|f rest s os s' Hout Hdry Hrun IH
                 |f rest s s1 os s' Hout Hdry Has Hrun IH|f rest s s1 Hout Hdry Has].
  - repeat split.
    + now exists [].
    + constructor.
    + intros [|? ?] ? ? ?; discriminate.
  - destruct IH as ((post & -> & Hpost) & Hall & Hlast). repeat split.
    + exists post. split; [reflexivity|]. now rewrite failed_total_cons.
    + constructor; [|exact Hall]. simpl. intuition congruence.
    + intros [|? os1] g os2 Heq; simplify_eq/=. eauto.
  - destruct IH as ((post & -> & Hpost) & Hall & Hlast). repeat split.
    + exists post. split; [reflexivity|]. now rewrite failed_total_cons.
    + constructor; [|exact Hall]. simpl. intuition congruence.
    + intros [|? os1] g os2 Heq; simplify_eq/=. eauto.
  - destruct IH as ((post & -> & Hpost) & Hall & Hlast). repeat split.
    + exists post. split; [reflexivity|]. now rewrite failed_total_cons.
    + constructor; [|exact Hall]. simpl. intuition congruence.
    + intros [|? os1] g os2 Heq; simplify_eq/=. eauto.
  - repeat split.
    + exists rest. split; [reflexivity|]. unfold failed_total; simpl. lia.
    + constructor; [|constructor]. simpl. intuition congruence.
    + intros [|? [|? ?]] g os2 Heq; simplify_eq/=. reflexivity.
Qed.

(** *** Runs *)

Lemma quiet_event (ev : event) :
  quiet ev = true ->
  insert_of ev = None /\ script_of ev = None /\ names_of ev = [] /\
  reports_failure ev = false /\ considered_name ev = None /\
  touches_database ev = false /\ reads_or_runs_script ev = false.
Proof.
  destruct ev as [[]| | |[]|[]| | |]; simpl; intros Hq;
    try discriminate; repeat split.
Qed.

Lemma quiet_log (e : env) (l : list event) :
  Forall (fun ev => quiet ev = true) l ->
  marks_follow_commits e l /\ scripts_follow_opens e l /\
  considered l = [] /\
  (forall X : list string, Forall (fun ev => names_of ev ⊆ X) l) /\
  filter (fun ev => reports_failure ev = true) l = [].
Proof.
  intros Hq. repeat split.
  - intros pre ev post x -> Hx.
    apply Forall_app in Hq as [_ Hq]. apply Forall_cons in Hq as [Hq _].
    apply quiet_event in Hq. destruct Hq as (Hq & _). congruence.
  - intros pre ev post x -> Hx.
    apply Forall_app in Hq as [_ Hq]. apply Forall_cons in Hq as [Hq _].
    apply quiet_event in Hq. destruct Hq as (_ & Hq & _). congruence.
  - induction Hq as [|ev l Hev _ IH]; [reflexivity|].
    apply quiet_event in Hev. destruct Hev as (_ & _ & _ & _ & Hc & _).
    unfold considered in *. simpl. now rewrite Hc.
  - intros X. eapply Forall_impl; [exact Hq|]. intros ev Hev.
    apply quiet_event in Hev. destruct Hev as (_ & _ & -> & _).
    intros ? Hx; inversion Hx.
  - induction Hq as [|ev l Hev _ IH]; [reflexivity|].
    apply quiet_event in Hev. destruct Hev as (_ & _ & _ & Hr & _).
    rewrite filter_cons. rewrite Hr. simpl. exact IH.
Qed.

Lemma quiet_banner (dry_run : bool) : Forall (fun ev => quiet ev = true) (banner dry_run).
Proof. destruct dry_run; repeat constructor. Qed.

Lemma quiet_preamble (dry_run : bool) (found already : nat) :
  Forall (fun ev => quiet ev = true) (preamble dry_run found already).
Proof. destruct dry_run; repeat constructor. Qed.

Lemma quiet_summary (dry_run : bool) (a fc : nat) :
  Forall (fun ev => quiet ev = true) (summary dry_run a fc).
Proof.
  unfold summary. destruct dry_run; [repeat constructor|].
  destruct (Nat.ltb 0 fc); repeat constructor.
Qed.

Lemma no_failure_reports (l : list event) :
  Forall (fun ev => reports_failure ev = false) l ->
  filter (fun ev => reports_failure ev = true) l = [].
Proof.
  induction 1 as [|ev l Hev _ IH]; [reflexivity|].
  rewrite filter_cons, Hev. exact IH.
Qed.

(** The log a run adds: the part that concerns migrations is the loop's. *)
Lemma run_as_log (dry_run : bool) (e : env) (s s' : state) (r : result Z) :
  run_as dry_run e s s' r ->
  exists delta,
    log s' = log s ++ delta /\
    marks_follow_commits e delta /\
    scripts_follow_opens e delta /\
    length (filter (fun ev => reports_failure ev = true) delta) <= 1 /\
    (Exists (fun ev => reports_failure ev = true) delta -> r = Ok 1%Z) /\
    (forall dir, migrations_dir e = Some dir ->
       exists post, list_sql dir = considered delta ++ post /\
         Forall (fun ev => names_of ev ⊆ considered delta) delta /\
         (db_reachable e = true ->
          Forall (fun ev => reports_failure ev = false) delta ->
          post = [] /\ r = Ok 0%Z)).
Proof.
  assert (Hquiet : forall l, Forall (fun ev => quiet ev = true) l ->
            length (filter (fun ev => reports_failure ev = true) l) <= 1 /\
            (Exists (fun ev => reports_failure ev = true) l -> r = Ok 1%Z)).
  { intros l Hq. destruct (quiet_log e l Hq) as (_ & _ & _ & _ & Hf).
    rewrite Hf. split; [simpl; lia|]. intros Hex.
    apply Exists_exists in Hex as (ev & Hin & Hev).
    assert (ev ∈ filter (fun ev => reports_failure ev = true) l)
      by (apply list_elem_of_filter; split; [exact Hev | exact Hin]).
    rewrite Hf in H. inversion H. }
  intros Hrun. inversion Hrun; subst.
  - exists (banner dry_run
            ++ [Print (ErrConnect OperationalError); Print ErrConnectDetails;
                Print (FailedToConnect (Psycopg2Error OperationalError))]).
    assert (Hq : Forall (fun ev => quiet ev = true)
                   (banner dry_run
                    ++ [Print (ErrConnect OperationalError); Print ErrConnectDetails;
                        Print (FailedToConnect (Psycopg2Error OperationalError))]))
      by (apply Forall_app; split; [apply quiet_banner | repeat constructor]).
    destruct (quiet_log e _ Hq) as (Hm & Hs & Hc & Hn & Hf).
    destruct (Hquiet _ Hq) as [Hle Hex].
    repeat split; try assumption. intros dir Hdir.
    exists (list_sql dir). rewrite Hc. repeat split; auto; congruence.
  - exists (banner dry_run ++ [EvConnect; Print Connected; Print DirNotFound]).
    assert (Hq : Forall (fun ev => quiet ev = true)
                   (banner dry_run ++ [EvConnect; Print Connected; Print DirNotFound]))
      by (apply Forall_app; split; [apply quiet_banner | repeat constructor]).
    destruct (quiet_log e _ Hq) as (Hm & Hs & Hc & Hn & Hf).
    destruct (Hquiet _ Hq) as [Hle Hex].
    repeat split; try assumption. intros dir Hdir. congruence.
  - exists (banner dry_run ++ [EvConnect; Print Connected; Print NoFilesFound]).
    assert (Hq : Forall (fun ev => quiet ev = true)
                   (banner dry_run ++ [EvConnect; Print Connected; Print NoFilesFound]))
      by (apply Forall_app; split; [apply quiet_banner | repeat constructor]).
    destruct (quiet_log e _ Hq) as (Hm & Hs & Hc & Hn & Hf).
    destruct (Hquiet _ Hq) as [Hle Hex].
    repeat split; try assumption. intros dir' Hdir'.
    exists []. rewrite Hc. simplify_eq. repeat split; auto.
  - destruct (loop_run_log _ _ _ _ _ _ _ H2) as (dl & Hlog & Hm & Hs & Hn & Hf & Hc).
    destruct (loop_run_outcomes _ _ _ _ _ _ _ H2) as ((post & Hfiles & Hpost) & _).
    pose proof (failed_total_le _ _ _ _ _ _ _ H2) as Hle.
    set (pre := preamble dry_run (length (list_sql dir)) (size (recorded (committed s)))).
    set (sm := summary dry_run (applied_total os) (failed_total os)).
    destruct (quiet_log e pre (quiet_preamble _ _ _)) as (Hm1 & Hs1 & Hc1 & Hn1 & Hf1).
    destruct (quiet_log e sm (quiet_summary _ _ _)) as (Hm2 & Hs2 & Hc2 & Hn2 & Hf2).
    assert (Hcons : considered (pre ++ dl ++ sm) = os.*1).
    { unfold considered in *. now rewrite !omap_app, Hc1, Hc2, Hc, app_nil_r. }
    assert (Hfil : length (filter (fun ev => reports_failure ev = true) (pre ++ dl ++ sm))
                   = failed_total os).
    { rewrite !filter_app, Hf1, Hf2, app_nil_r. exact Hf. }
    exists (pre ++ dl ++ sm).
    split; [subst pre sm; cbn [log]; now apply run_loop_log|].
    split; [|split; [|split; [|split]]].
    + apply marks_follow_commits_app; [exact Hm1|].
      apply marks_follow_commits_app; [exact Hm | exact Hm2].
    + apply scripts_follow_opens_app; [exact Hs1|].
      apply scripts_follow_opens_app; [exact Hs | exact Hs2].
    + rewrite Hfil. exact Hle.
    + intros Hex. destruct (failed_total os) as [|n] eqn:Hn0; [|reflexivity].
      exfalso. apply Exists_exists in Hex as (ev & Hin & Hev).
      assert (Hin' : ev ∈ filter (fun ev => reports_failure ev = true) (pre ++ dl ++ sm))
        by (apply list_elem_of_filter; split; [exact Hev | exact Hin]).
      destruct (filter _ (pre ++ dl ++ sm)); [inversion Hin' | discriminate].
    + intros dir' Hdir'. simplify_eq. exists post. rewrite Hcons.
      split; [exact Hfiles|]. split.
      * apply Forall_app; split; [apply Hn1|].
        apply Forall_app; split; [exact Hn | apply Hn2].
      * intros _ Hnone.
        assert (Hz : failed_total os = 0).
        { rewrite <- Hfil. now rewrite no_failure_reports. }
        split; [auto | now rewrite Hz].
Qed.

(** ** The claims *)

(** C7. For an existing migrations directory the catalog is exactly the
    entries of that directory whose name ends with [.sql], each once, in
    ascending lexicographic order of their names; listing has no effect;
    and the migrations a run considers are, in order, an initial segment
    of that listing, all of it when the run is connected and nothing
    fails. *)
Theorem catalog_lists_sql_files_in_order (e : env) (dir : gmap string file) :
  migrations_dir e = Some dir ->
  (forall s, get_migration_files e s = (s, Ok (list_sql dir))) /\
  (forall name,
     name ∈ list_sql dir <->
     is_Some (dir !! name) /\ exists base, name = base +:+ ".sql") /\
  NoDup (list_sql dir) /\
  StronglySorted Filename.name_le (list_sql dir) /\
  (forall dry_run s s' r,
     run_migrations dry_run e s = (s', r) ->
     exists delta,
       log s' = log s ++ delta /\
       considered delta `prefix_of` list_sql dir /\
       (db_reachable e = true ->
        Forall (fun ev => reports_failure ev = false) delta ->
        considered delta = list_sql dir)).
Proof.
  intros Hdir. split; [|split; [|split; [|split]]].
  - intros s. unfold get_migration_files. now rewrite Hdir.
  - intros name. rewrite CatalogFacts.elem_of_list_sql.
    now rewrite FilenameFacts.matches_sql_spec.
  - apply CatalogFacts.NoDup_list_sql.
  - apply CatalogFacts.StronglySorted_list_sql.
  - intros dry_run s s' r Hrun.
    destruct (run_migrations_as dry_run e s) as (s1 & r1 & Heq & Has).
    rewrite Hrun in Heq. injection Heq as <- <-.
    destruct (run_as_log _ _ _ _ _ Has) as (delta & Hlog & _ & _ & _ & _ & Hcat).
    destruct (Hcat dir Hdir) as (post & Hfiles & _ & Hall).
    exists delta. split; [exact Hlog|]. split.
    + now exists post.
    + intros Hdb Hnone. destruct (Hall Hdb Hnone) as [-> _].
      now rewrite Hfiles, app_nil_r.
Qed.

Lemma applied_as_no_skip (e : env) (f g : string) (s s1 : state) (b : bool) :
  applied_as e f s s1 b ->
  exists delta, log s1 = log s ++ delta /\ Print (Skipping g) ∉ delta.
Proof.
  intros Has. inversion Has; subst; simpl; eexists; (split; [reflexivity|]).
  all: intros Hin; repeat (apply elem_of_cons in Hin as [Hin|Hin]; [discriminate|]).
  all: inversion Hin.
Qed.

(** A line "Skipping" is printed for exactly the considered migrations
    whose identity is in the applied set. *)
Lemma loop_run_skips (dry_run : bool) (e : env) (applied : gset string)
    (files : list string) (s s' : state) (os : list (string * outcome)) :
  loop_run dry_run e applied files s os s' ->
  exists delta,
    log s' = log s ++ delta /\
    forall g, Print (Skipping g) ∈ delta <->
              g ∈ os.*1 /\ extract_migration_id g ∈ applied.
Proof.
  induction 1 as [s|f rest s os s' Hin Hrun IH|f rest s os s' Hout Hdry Hrun IH
                 |f rest s s1 os s' Hout Hdry Has Hrun IH|f rest s s1 Hout Hdry Has].
  - exists []. rewrite app_nil_r. split; [reflexivity|].
    intros g. simpl. rewrite !elem_of_nil. tauto.
  - destruct IH as (delta & Hlog & IH). simpl in Hlog. rewrite <- app_assoc in Hlog.
    exists (Print (Skipping f) :: delta). split; [exact Hlog|].
    intros g. simpl. rewrite !elem_of_cons, IH. split.
    + intros [Heq|[? ?]]; [injection Heq as ->|]; auto.
    + intros [[->|?] ?]; auto.
  - destruct IH as (delta & Hlog & IH). simpl in Hlog. rewrite <- app_assoc in Hlog.
    exists (Print (WouldApply f) :: delta). split; [exact Hlog|].
    intros g. simpl. rewrite !elem_of_cons, IH. split.
    + intros [Heq|[? ?]]; [discriminate|]; auto.
    + intros [[->|?] ?]; [contradiction|]; auto.
  - destruct IH as (delta & Hlog & IH).
    exists (drop (length (log s)) (log s1) ++ delta).
    destruct (applied_as_no_skip e f f _ _ _ Has) as (d1 & Hlog1 & _).
    rewrite Hlog, Hlog1, drop_app_length, <- app_assoc. split; [reflexivity|].
    intros g. destruct (applied_as_no_skip e f g _ _ _ Has) as (d1' & Hlog1' & Hno).
    rewrite Hlog1 in Hlog1'. apply app_inv_head in Hlog1'. subst d1'.
    simpl. rewrite elem_of_app, elem_of_cons, IH. split.
    + intros [?|[? ?]]; [contradiction|]; auto.
    + intros [[->|?] ?]; [contradiction|]; auto.
  - exists (drop (length (log s)) (log s1) ++ [Print Stopping]).
    destruct (applied_as_no_skip e f f _ _ _ Has) as (d1 & Hlog1 & _).
    simpl. rewrite Hlog1, drop_app_length, <- app_assoc. split; [reflexivity|].
    intros g. destruct (applied_as_no_skip e f g _ _ _ Has) as (d1' & Hlog1' & Hno).
    rewrite Hlog1 in Hlog1'. apply app_inv_head in Hlog1'. subst d1'.
    rewrite elem_of_app, !elem_of_cons, elem_of_nil. split.
    + intros [?|[?|?]]; [contradiction|discriminate|contradiction].
    + intros [[->|?] ?]; [contradiction|]. exfalso. eapply elem_of_nil; eauto.
Qed.

Lemma quiet_not_skipping (l : list event) (g : string) :
  Forall (fun ev => quiet ev = true) l -> Print (Skipping g) ∉ l.
Proof.
  intros Hq Hin. rewrite Forall_forall in Hq. specialize (Hq _ Hin). discriminate.
Qed.

Lemma run_as_skips (dry_run : bool) (e : env) (s s' : state) (r : result Z) :
  run_as dry_run e s s' r ->
  exists delta,
    log s' = log s ++ delta /\
    forall g, Print (Skipping g) ∈ delta <->
              g ∈ considered delta /\
              extract_migration_id g ∈ recorded (committed s).
Proof.
  assert (Hquiet : forall l, Forall (fun ev => quiet ev = true) l ->
            forall g, Print (Skipping g) ∈ l <->
                      g ∈ considered l /\
                      extract_migration_id g ∈ recorded (committed s)).
  { intros l Hq g. destruct (quiet_log (Env true None) l Hq) as (_ & _ & -> & _).
    split; [intros Hin; now apply quiet_not_skipping in Hin|].
    intros [Hin _]. inversion Hin. }
  intros Hrun. inversion Hrun; subst.
  1-3: eexists; (split; [unfold push; cbn [log]; reflexivity|]); apply Hquiet;
       apply Forall_app; split; [apply quiet_banner | repeat constructor].
  destruct (loop_run_log _ _ _ _ _ _ _ H2) as (dl & Hlog & _ & _ & _ & _ & Hc).
  destruct (loop_run_skips _ _ _ _ _ _ _ H2) as (dl' & Hlog' & Hskip).
  rewrite Hlog in Hlog'. apply app_inv_head in Hlog'. subst dl'.
  set (pre := preamble dry_run (length (list_sql dir)) (size (recorded (committed s)))).
  set (sm := summary dry_run (applied_total os) (failed_total os)).
  exists (pre ++ dl ++ sm).
  split; [subst pre sm; now apply run_loop_log|].
  intros g.
  destruct (quiet_log e pre (quiet_preamble _ _ _)) as (_ & _ & Hc1 & _).
  destruct (quiet_log e sm (quiet_summary _ _ _)) as (_ & _ & Hc2 & _).
  unfold considered in *. rewrite !omap_app, Hc1, Hc2, Hc, app_nil_r.
  cbn [app]. rewrite <- Hskip, !elem_of_app. split; [|tauto].
  intros [Hin|[Hin|Hin]]; [|exact Hin|].
  - now apply quiet_not_skipping in Hin; [|apply quiet_preamble].
  - now apply quiet_not_skipping in Hin; [|apply quiet_summary].
Qed.

(** C5. The identity of a migration is its file name without the
    extension; the loop skips a migration, printing "Skipping" and
    touching neither the database nor the file, exactly when that
    identity is in the applied set loaded at the start of the run; and
    being in that set is equality of strings, character by character. *)
Theorem skipped_iff_identity_recorded :
  (forall name, extract_migration_id name +:+ Filename.suffix name = name) /\
  (forall base, base <> "" -> extract_migration_id (base +:+ ".sql") = base) /\
  (forall dry_run e applied f rest a fc s,
     (extract_migration_id f ∈ applied ->
      apply_pending dry_run e applied (f :: rest) a fc s
      = apply_pending dry_run e applied rest a fc (push s [Print (Skipping f)])) /\
     (extract_migration_id f ∉ applied ->
      exists s' r delta,
        apply_pending dry_run e applied (f :: rest) a fc s = (s', r) /\
        log s' = log s ++ delta /\
        Print (Skipping f) ∉ delta)) /\
  (forall dry_run e s s' r,
     run_migrations dry_run e s = (s', r) ->
     exists delta,
       log s' = log s ++ delta /\
       forall f, f ∈ considered delta ->
         (Print (Skipping f) ∈ delta <->
          extract_migration_id f ∈ recorded (committed s))) /\
  (forall (rows : list string) (migration_id : string),
     migration_id ∈ (list_to_set rows : gset string) <->
     exists row, row ∈ rows /\ String.eqb row migration_id = true) /\
  (extract_migration_id "001_A.sql" ∉ ({[ "001_a" ]} : gset string)) /\
  (extract_migration_id "001_a .sql" ∉ ({[ "001_a" ]} : gset string)).
Proof.
  split; [|split; [|split; [|split; [|split; [|split]]]]].
  - exact FilenameFacts.stem_suffix.
  - exact FilenameFacts.stem_sql.
  - intros dry_run e applied f rest a fc s. split.
    + intros Hin. simpl. destruct (decide _); [reflexivity | contradiction].
    + intros Hout.
      destruct (apply_pending_spec dry_run e applied (f :: rest) a fc s)
        as (os & s' & Heq & Hrun).
      destruct (loop_run_skips _ _ _ _ _ _ _ Hrun) as (delta & Hlog & Hskip).
      eexists s', _, delta. split; [exact Heq|]. split; [exact Hlog|].
      rewrite Hskip. tauto.
  - intros dry_run e s s' r Hrun.
    destruct (run_migrations_as dry_run e s) as (s1 & r1 & Heq & Has).
    rewrite Hrun in Heq. injection Heq as <- <-.
    destruct (run_as_skips _ _ _ _ _ Has) as (delta & Hlog & Hskip).
    exists delta. split; [exact Hlog|]. intros f Hf. rewrite Hskip. tauto.
  - intros rows migration_id. rewrite elem_of_list_to_set. split.
    + intros Hin. exists migration_id. split; [exact Hin | apply String.eqb_refl].
    + intros (row & Hin & Heq). apply String.eqb_eq in Heq. now subst.
  - intros Hin. apply elem_of_singleton in Hin. discriminate Hin.
  - intros Hin. apply elem_of_singleton in Hin. discriminate Hin.
Qed.

(** *** What a pass of the loop leaves in the database *)



Lemma exec_result_settled (q : query) (s : state) :
  settled s ->
  exec_result q (committed s) (txn s) = run_query q (committed s) (committed s).
Proof. intros [->| ->]; reflexivity. Qed.




(** A dry pass only prints. *)
Lemma loop_run_dry (e : env) (applied : gset string)
    (files : list string) (s s' : state) (os : list (string * outcome)) :
  loop_run true e applied files s os s' ->
  committed s' = committed s /\ txn s' = txn s /\
  failed_total os = 0 /\
  exists delta,
    log s' = log s ++ delta /\
    Forall (fun ev => exists f, ev = Print (Skipping f) \/ ev = Print (WouldApply f))
           delta.
Proof.
  remember true as dry eqn:Hd.
  induction 1 as [s|f rest s os s' Hin Hrun IH|f rest s os s' Hout Hdry Hrun IH
                 |f rest s s1 os s' Hout Hdry Has Hrun IH|f rest s s1 Hout Hdry Has];
    subst; try discriminate.
  - repeat split. exists []. now rewrite app_nil_r.
  - destruct IH as (Hc & Ht & Hf & delta & Hlog & Hall).
    rewrite failed_total_cons. repeat split; try assumption.
    exists (Print (Skipping f) :: delta). simpl in Hlog. rewrite <- app_assoc in Hlog.
    split; [exact Hlog|]. constructor; [eauto | exact Hall].
  - destruct IH as (Hc & Ht & Hf & delta & Hlog & Hall).
    rewrite failed_total_cons. repeat split; try assumption.
    exists (Print (WouldApply f) :: delta). simpl in Hlog. rewrite <- app_assoc in Hlog.
    split; [exact Hlog|]. constructor; [eauto | exact Hall].
Qed.


Lemma applied_as_failures (e : env) (f : string) (s s1 : state) (b : bool) :
  applied_as e f s s1 b ->
  exists delta,
    log s1 = log s ++ delta /\
    forall ev, ev ∈ delta -> reports_failure ev = true ->
               b = false /\ names_of ev = [f].
Proof.
  intros Has. inversion Has; subst; simpl; eexists; (split; [reflexivity|]).
  all: intros ev Hin Hev;
    repeat (apply elem_of_cons in Hin as [->|Hin]; [try discriminate; auto|]).
  all: inversion Hin.
Qed.

(** A failure report names the migration whose outcome is [FAILED]. *)
Lemma loop_run_failures (dry_run : bool) (e : env) (applied : gset string)
    (files : list string) (s s' : state) (os : list (string * outcome)) :
  loop_run dry_run e applied files s os s' ->
  exists delta,
    log s' = log s ++ delta /\
    forall ev, ev ∈ delta -> reports_failure ev = true ->
               exists f, names_of ev = [f] /\ (f, FAILED) ∈ os.
Proof.
  induction 1 as [s|f rest s os s' Hin Hrun IH|f rest s os s' Hout Hdry Hrun IH
                 |f rest s s1 os s' Hout Hdry Has Hrun IH|f rest s s1 Hout Hdry Has].
  - exists []. rewrite app_nil_r. split; [reflexivity|]. intros ev Hel. inversion Hel.
  - destruct IH as (delta & Hlog & IH). simpl in Hlog. rewrite <- app_assoc in Hlog.
    exists (Print (Skipping f) :: delta). split; [exact Hlog|].
    intros ev Hel Hev. apply elem_of_cons in Hel as [->|Hel]; [discriminate|].
    destruct (IH ev Hel Hev) as (g & ? & ?). exists g. split; [assumption|].
    now apply elem_of_cons; right.
  - destruct IH as (delta & Hlog & IH). simpl in Hlog. rewrite <- app_assoc in Hlog.
    exists (Print (WouldApply f) :: delta). split; [exact Hlog|].
    intros ev Hel Hev. apply elem_of_cons in Hel as [->|Hel]; [discriminate|].
    destruct (IH ev Hel Hev) as (g & ? & ?). exists g. split; [assumption|].
    now apply elem_of_cons; right.
  - destruct IH as (delta & Hlog & IH).
    destruct (applied_as_failures _ _ _ _ _ Has) as (d1 & Hlog1 & Hf1).
    exists (d1 ++ delta). rewrite Hlog, Hlog1, <- app_assoc. split; [reflexivity|].
    intros ev Hel Hev. apply elem_of_app in Hel as [Hel|Hel].
    + destruct (Hf1 ev Hel Hev) as [? _]. discriminate.
    + destruct (IH ev Hel Hev) as (g & ? & ?). exists g. split; [assumption|].
      now apply elem_of_cons; right.
  - destruct (applied_as_failures _ _ _ _ _ Has) as (d1 & Hlog1 & Hf1).
    exists (d1 ++ [Print Stopping]). simpl. rewrite Hlog1, <- app_assoc.
    split; [reflexivity|].
    intros ev Hel Hev. apply elem_of_app in Hel as [Hel|Hel].
    + destruct (Hf1 ev Hel Hev) as [_ ?]. exists f. split; [assumption|].
      apply elem_of_cons; now left.
    + apply elem_of_cons in Hel as [->|Hel]; [discriminate | inversion Hel].
Qed.


Lemma exec_stmts_transactional (stmts : list stmt) :
  Forall transactional stmts ->
  forall d w, (exec_stmts stmts d w).1 = d.
Proof.
  induction 1 as [|st rest Hst _ IH]; intros d w; simpl; [reflexivity|].
  pose proof (Hst d w) as Hd.
  destruct (exec_stmt st d w) as [d1 [err|w1]]; simpl in Hd; subst d1;
    [reflexivity | apply IH].
Qed.

(** A script of transactional statements makes nothing durable, whether
    it fails or not. *)
Lemma run_script_transactional (sql : string) (t : txn_status) (d : db) :
  script_is_transactional sql ->
  (exec_result (Script sql) d t).1 = d.
Proof.
  intros Htr.
  assert (Hq : forall w, (run_query (Script sql) d w).1 = d).
  { intros w. unfold run_query, run_script.
    destruct (parse_sql sql) as [err|[|st stmts]] eqn:Hparse; try reflexivity.
    pose proof (exec_stmts_transactional _ (Htr _ Hparse) d w) as Hd.
    destruct (exec_stmts (st :: stmts) d w) as [d0 [err|w']]; exact Hd. }
  destruct t; simpl; [apply Hq | apply Hq | reflexivity].
Qed.

(** C4 (as amended). When the execution of a migration's script raises
    an error, the transaction is rolled back: what the transaction had
    done is discarded and the database holds what was durable when the
    error struck; no record of the identity is inserted;
    [apply_migration] returns [False], its report line carrying the
    error; the script is executed once, and the loop stops after it.
    When the statements of the script are transactional, as in a script
    without a [COMMIT] of its own, the database holds what it held
    before the attempt: in particular, of a script of two such
    statements whose second fails, nothing of the first remains. *)
Theorem failed_script_is_rolled_back (e : env) (f sql : string) (s : state) :
  read_file e f = inr sql ->
  (forall d0 err,
     txn s <> Aborted ->
     exec_result (Script sql) (committed s) (txn s) = (d0, inl err) ->
     apply_migration e f s
     = (State d0 Idle
          (log s ++ [Print (Applying f); EvOpen f;
                     EvExecuteFailed (Script sql) err; EvRollback;
                     Print (FailedToApply f err)]),
        Ok false) /\
     (forall applied rest a fc,
        extract_migration_id f ∉ applied ->
        apply_pending false e applied (f :: rest) a fc s
        = (State d0 Idle
             (log s ++ [Print (Applying f); EvOpen f;
                        EvExecuteFailed (Script sql) err; EvRollback;
                        Print (FailedToApply f err); Print Stopping]),
           Ok (a, S fc))) /\
     (script_is_transactional sql -> d0 = committed s)) /\
  (forall st1 st2 d1 w1 d2 err2,
     settled s ->
     parse_sql sql = inr [st1; st2] ->
     transactional st1 ->
     transactional st2 ->
     exec_stmt st1 (committed s) (committed s) = (d1, inr w1) ->
     exec_stmt st2 d1 w1 = (d2, inl err2) ->
     apply_migration e f s
     = (State (committed s) Idle
          (log s ++ [Print (Applying f); EvOpen f;
                     EvExecuteFailed (Script sql) (ServerError err2); EvRollback;
                     Print (FailedToApply f (ServerError err2))]),
        Ok false)).
Proof.
  intros Hread.
  assert (Happ : forall d0 err,
            exec_result (Script sql) (committed s) (txn s) = (d0, inl err) ->
            apply_migration e f s
            = (State d0 Idle
                 (log s ++ [Print (Applying f); EvOpen f;
                            EvExecuteFailed (Script sql) err; EvRollback;
                            Print (FailedToApply f err)]),
               Ok false)).
  { intros d0 err Hexec.
    destruct (apply_migration_spec e f s) as (s' & b & Heq & Has).
    rewrite Heq. inversion Has; subst; congruence. }
  split.
  - intros d0 err _ Hexec. split; [now apply Happ|]. split.
    + intros applied rest a fc Hout. simpl.
      destruct (decide _) as [Hin|_]; [contradiction|].
      unfold_m. rewrite (Happ d0 err Hexec). simpl. now rewrite <- app_assoc.
    + intros Htr.
      pose proof (run_script_transactional sql (txn s) (committed s) Htr) as Hd.
      now rewrite Hexec in Hd.
  - intros st1 st2 d1 w1 d2 err2 Hs Hparse Htr1 Htr2 H1 H2. apply Happ.
    rewrite (exec_result_settled _ _ Hs).
    unfold run_query, run_script. rewrite Hparse. simpl. rewrite H1, H2.
    pose proof (Htr1 (committed s) (committed s)) as Hd1. rewrite H1 in Hd1.
    pose proof (Htr2 d1 w1) as Hd2. rewrite H2 in Hd2.
    simpl in Hd1, Hd2. now subst.
Qed.







Lemma quiet_not_failure (l : list event) (ev : event) :
  Forall (fun ev => quiet ev = true) l -> ev ∈ l -> reports_failure ev = false.
Proof.
  intros Hq Hin. rewrite Forall_forall in Hq. specialize (Hq _ Hin).
  now apply quiet_event in Hq as (_ & _ & _ & Hq & _).
Qed.

(** The migration a failure report names is the last one considered,
    and nothing in the log concerns a migration that sorts after it. *)
Lemma run_as_failures (dry_run : bool) (e : env) (s s' : state) (r : result Z) :
  run_as dry_run e s s' r ->
  exists delta,
    log s' = log s ++ delta /\
    forall ev, ev ∈ delta -> reports_failure ev = true ->
      exists dir f pre post,
        migrations_dir e = Some dir /\
        names_of ev = [f] /\
        list_sql dir = pre ++ f :: post /\
        considered delta = pre ++ [f] /\
        forall g ev', g ∈ post -> ev' ∈ delta -> g ∉ names_of ev'.
Proof.
  intros Hrun. inversion Hrun; subst.
  1-3: eexists; (split; [unfold push; cbn [log]; reflexivity|]);
       intros ev Hin Hev; exfalso;
       apply (quiet_not_failure _ ev) in Hin; [congruence|];
       apply Forall_app; split; [apply quiet_banner | repeat constructor].
  destruct (loop_run_log _ _ _ _ _ _ _ H2) as (dl & Hlog & _ & _ & Hn & _ & Hc).
  destruct (loop_run_failures _ _ _ _ _ _ _ H2) as (dl' & Hlog' & Hfail).
  rewrite Hlog in Hlog'. apply app_inv_head in Hlog'. subst dl'.
  destruct (loop_run_outcomes _ _ _ _ _ _ _ H2) as ((post & Hfiles & _) & _ & Hlast).
  set (pre := preamble dry_run (length (list_sql dir)) (size (recorded (committed s)))).
  set (sm := summary dry_run (applied_total os) (failed_total os)).
  destruct (quiet_log e pre (quiet_preamble _ _ _)) as (_ & _ & Hc1 & Hn1 & _).
  destruct (quiet_log e sm (quiet_summary _ _ _)) as (_ & _ & Hc2 & Hn2 & _).
  assert (Hcons : considered (pre ++ dl ++ sm) = os.*1).
  { unfold considered in *. now rewrite !omap_app, Hc1, Hc2, Hc, app_nil_r. }
  exists (pre ++ dl ++ sm).
  split; [subst pre sm; cbn [log]; now apply run_loop_log|].
  intros ev Hin Hev.
  assert (Hdl : ev ∈ dl).
  { rewrite !elem_of_app in Hin. destruct Hin as [Hin|[Hin|Hin]]; [|exact Hin|].
    - apply (quiet_not_failure _ ev) in Hin; [congruence | apply quiet_preamble].
    - apply (quiet_not_failure _ ev) in Hin; [congruence | apply quiet_summary]. }
  destruct (Hfail ev Hdl Hev) as (f & Hname & Hf).
  apply list_elem_of_split in Hf as (os1 & os2 & Hos).
  pose proof (Hlast os1 f os2 Hos) as ->.
  assert (Hfst : os.*1 = os1.*1 ++ [f]) by (rewrite Hos, fmap_app; reflexivity).
  exists dir, f, (os1.*1), post. rewrite Hcons.
  split; [assumption|]. split; [exact Hname|]. split.
  { rewrite Hfiles, Hfst, <- app_assoc. reflexivity. }
  split; [exact Hfst|].
  intros g ev' Hg Hev' Hgn.
  assert (Hnames : Forall (fun ev => names_of ev ⊆ os.*1) (pre ++ dl ++ sm)).
  { apply Forall_app; split; [apply Hn1|].
    apply Forall_app; split; [exact Hn | apply Hn2]. }
  rewrite Forall_forall in Hnames. specialize (Hnames ev' Hev' g Hgn).
  pose proof (CatalogFacts.NoDup_list_sql dir) as Hnd.
  rewrite Hfiles in Hnd. apply NoDup_app in Hnd as (_ & Hdisj & _).
  exact (Hdisj g Hnames Hg).
Qed.

(** C2 (as amended). In a run that is not dry, at most one migration
    fails; when one fails the exit code is 1, that migration is the last
    one considered, and no event of the run reads, executes or mentions
    a migration that comes after it in the catalog; and a run that
    obtains its connection and finds its directory ends with exit code 0
    when no migration fails. Every script execution follows the opening
    of its file, so a file that is not opened is not executed. *)
Theorem stops_at_first_failure (e : env) (s s' : state) (r : result Z) :
  run_migrations false e s = (s', r) ->
  exists delta,
    log s' = log s ++ delta /\
    length (filter (fun ev => reports_failure ev = true) delta) <= 1 /\
    scripts_follow_opens e delta /\
    (forall ev, ev ∈ delta -> reports_failure ev = true ->
       exit_status r = 1%Z /\
       exists dir f pre post,
         migrations_dir e = Some dir /\
         names_of ev = [f] /\
         list_sql dir = pre ++ f :: post /\
         considered delta = pre ++ [f] /\
         forall g ev', g ∈ post -> ev' ∈ delta -> g ∉ names_of ev') /\
    (db_reachable e = true ->
     is_Some (migrations_dir e) ->
     Forall (fun ev => reports_failure ev = false) delta ->
     exit_status r = 0%Z).
Proof.
  intros Hrun.
  destruct (run_migrations_as false e s) as (s1 & r1 & Heq & Has).
  rewrite Hrun in Heq. injection Heq as <- <-.
  destruct (run_as_log _ _ _ _ _ Has) as (delta & Hlog & _ & Hs & Hle & Hex & Hcat).
  destruct (run_as_failures _ _ _ _ _ Has) as (delta' & Hlog' & Hfail).
  rewrite Hlog in Hlog'. apply app_inv_head in Hlog'. subst delta'.
  exists delta. split; [exact Hlog|]. split; [exact Hle|]. split; [exact Hs|]. split.
  - intros ev Hin Hev. split.
    + rewrite Hex; [reflexivity|]. apply Exists_exists. eauto.
    + now apply Hfail.
  - intros Hdb [dir Hdir] Hnone.
    destruct (Hcat dir Hdir) as (post & _ & _ & Hok).
    destruct (Hok Hdb Hnone) as [_ ->]. reflexivity.
Qed.

(** What a dry run does, whatever the environment. *)
Lemma run_as_dry (e : env) (s s' : state) (r : result Z) :
  run_as true e s s' r ->
  (committed s' = committed s \/ committed s' = ensure_table (committed s)) /\
  (db_reachable e = true -> is_Some (migrations_dir e) -> r = Ok 0%Z) /\
  exists delta,
    log s' = log s ++ delta /\
    Forall (fun ev => reads_or_runs_script ev = false /\
                      touches_database ev = false /\
                      reports_failure ev = false) delta.
Proof.
  assert (Hquiet : forall l, Forall (fun ev => quiet ev = true) l ->
            Forall (fun ev => reads_or_runs_script ev = false /\
                              touches_database ev = false /\
                              reports_failure ev = false) l).
  { intros l Hq. eapply Forall_impl; [exact Hq|]. intros ev Hev. simpl in *.
    apply quiet_event in Hev. destruct Hev as (_ & _ & _ & ? & _ & ? & ?). auto. }
  intros Hrun. inversion Hrun; subst.
  - split; [now left|]. split; [congruence|].
    eexists. split; [unfold push; cbn [log]; reflexivity|]. apply Hquiet.
    apply Forall_app; split; [apply quiet_banner | repeat constructor].
  - split; [now left|]. split; [intros _ [? ?]; congruence|].
    eexists. split; [cbn [log]; reflexivity|]. apply Hquiet.
    apply Forall_app; split; [apply quiet_banner | repeat constructor].
  - split; [now left|]. split; [reflexivity|].
    eexists. split; [cbn [log]; reflexivity|]. apply Hquiet.
    apply Forall_app; split; [apply quiet_banner | repeat constructor].
  - destruct (loop_run_dry _ _ _ _ _ _ H2) as (Hc & _ & Hf & dl & Hlog & Hall).
    split; [right; cbn [committed]; now rewrite Hc|].
    split; [intros _ _; now rewrite Hf|].
    exists (preamble true (length (list_sql dir)) (size (recorded (committed s)))
            ++ dl ++ summary true (applied_total os) (failed_total os)).
    split; [cbn [log]; now apply run_loop_log|].
    apply Forall_app; split; [apply Hquiet, quiet_preamble|].
    apply Forall_app; split; [|apply Hquiet, quiet_summary].
    eapply Forall_impl; [exact Hall|]. intros ev (f & [->| ->]); now repeat split.
Qed.

(** X16. A dry run reads and executes no script and inserts no record;
    the only change it can make to the database is to create the
    bookkeeping table, empty, when it is absent: the rest of the schema
    and the recorded identities are what they were, and a database that
    has the table is left exactly as it was. *)
Theorem dry_run_changes_only_bookkeeping_table (e : env) (s s' : state) (r : result Z) :
  run_migrations true e s = (s', r) ->
  (committed s' = committed s \/ committed s' = ensure_table (committed s)) /\
  user_schema (committed s') = user_schema (committed s) /\
  recorded (committed s') = recorded (committed s) /\
  (is_Some (migrations_table (committed s)) -> committed s' = committed s) /\
  exists delta,
    log s' = log s ++ delta /\
    Forall (fun ev => reads_or_runs_script ev = false /\
                      touches_database ev = false) delta.
Proof.
  intros Hrun.
  destruct (run_migrations_as true e s) as (s1 & r1 & Heq & Has).
  rewrite Hrun in Heq. injection Heq as <- <-.
  destruct (run_as_dry _ _ _ _ Has) as (Hc & _ & delta & Hlog & Hall).
  split; [exact Hc|]. split; [|split; [|split]].
  - destruct Hc as [->| ->]; [reflexivity | apply user_schema_ensure_table].
  - destruct Hc as [->| ->]; [reflexivity | apply recorded_ensure_table].
  - intros [t Ht]. destruct Hc as [->| ->]; [reflexivity|].
    unfold ensure_table. now rewrite Ht.
  - exists delta. split; [exact Hlog|].
    eapply Forall_impl; [exact Hall|]. simpl. intros ev (? & ? & ?). auto.
Qed.

(** C10. A dry run that obtains its connection and finds the migrations
    directory returns 0 and reports no failure, whatever the scripts
    contain and whether or not they can be read: it opens and executes
    none of them. *)
Theorem dry_run_cannot_fail (e : env) (dir : gmap string file)
    (s s' : state) (r : result Z) :
  db_reachable e = true ->
  migrations_dir e = Some dir ->
  run_migrations true e s = (s', r) ->
  r = Ok 0%Z /\
  exit_status r = 0%Z /\
  exists delta,
    log s' = log s ++ delta /\
    Forall (fun ev => reports_failure ev = false /\
                      reads_or_runs_script ev = false) delta.
Proof.
  intros Hdb Hdir Hrun.
  destruct (run_migrations_as true e s) as (s1 & r1 & Heq & Has).
  rewrite Hrun in Heq. injection Heq as <- <-.
  destruct (run_as_dry _ _ _ _ Has) as (_ & Hok & delta & Hlog & Hall).
  rewrite (Hok Hdb (ex_intro _ dir Hdir)). repeat split.
  exists delta. split; [exact Hlog|].
  eapply Forall_impl; [exact Hall|]. simpl. intros ev (? & ? & ?). auto.
Qed.

Lemma list_sql_nil (dir : gmap string file) :
  (forall name, is_Some (dir !! name) -> ~ exists base, name = base +:+ ".sql") ->
  list_sql dir = [].
Proof.
  intros Hnone. destruct (list_sql dir) as [|f fs] eqn:Hl; [reflexivity|].
  assert (Hin : f ∈ list_sql dir) by (rewrite Hl; apply elem_of_cons; now left).
  apply CatalogFacts.elem_of_list_sql in Hin as [Hsome Hm].
  apply FilenameFacts.matches_sql_spec in Hm. now destruct (Hnone f Hsome).
Qed.

(** C9 (as amended). A run that obtains its connection and whose
    migrations directory exists but holds no [.sql] file gets an empty
    catalog, not an error, and returns 0 after printing that no file was
    found: it considers no migration, reports no failure, and sends no
    query at all to the database, which it leaves as it was. *)
Theorem empty_catalog_is_nothing_to_do (dry_run : bool) (e : env)
    (dir : gmap string file) (s : state) :
  db_reachable e = true ->
  migrations_dir e = Some dir ->
  (forall name, is_Some (dir !! name) -> ~ exists base, name = base +:+ ".sql") ->
  get_migration_files e s = (s, Ok []) /\
  run_migrations dry_run e s
  = (State (committed s) Idle
       (log s ++ banner dry_run ++ [EvConnect; Print Connected; Print NoFilesFound]),
     Ok 0%Z) /\
  Forall (fun ev => is_query ev = false /\ considered_name ev = None /\
                    reports_failure ev = false)
         (banner dry_run ++ [EvConnect; Print Connected; Print NoFilesFound]).
Proof.
  intros Hdb Hdir Hnone. pose proof (list_sql_nil dir Hnone) as Hnil.
  split; [|split].
  - unfold get_migration_files. now rewrite Hdir, Hnil.
  - now apply (run_migrations_nothing_found dry_run e s dir).
  - destruct dry_run; repeat constructor.
Qed.








(** ** Further properties of the code *)

(** *** Exit status and fatal configuration errors *)

(** X1. The process ends with status 0, 1 or 2: with 2 exactly when the
    command line is refused, with 0 when help is asked for, and
    otherwise with the status of the run, which is 0 only when the
    connection was obtained and the migrations directory exists.  When
    help is asked for or the command line is refused, the runner prints
    nothing and connects to nothing. *)
Theorem exit_status_of_main (argv : command_line) (e : env) (s : state) :
  ((main argv e s).2 = 0%Z \/ (main argv e s).2 = 1%Z \/ (main argv e s).2 = 2%Z) /\
  ((main argv e s).2 = 2%Z <-> argv = Unrecognized) /\
  ((main argv e s).2 = 0%Z ->
   argv = Help \/
   (exists dry_run, argv = Flags dry_run) /\
   db_reachable e = true /\ is_Some (migrations_dir e)) /\
  (argv = Help \/ argv = Unrecognized -> (main argv e s).1 = s) /\
  (forall dry_run,
     argv = Flags dry_run ->
     main argv e s
     = ((run_migrations dry_run e s).1, exit_status (run_migrations dry_run e s).2)).
Proof.
  destruct argv as [dry_run| |].
  - assert (Hmain : main (Flags dry_run) e s
                    = ((run_migrations dry_run e s).1,
                       exit_status (run_migrations dry_run e s).2)).
    { unfold main, parse_args. unfold_m.
      destruct (run_migrations dry_run e s) as [s' [code|ex]]; reflexivity. }
    rewrite Hmain. cbn [fst snd].
    destruct (run_migrations_as dry_run e s) as (s' & r & Heq & Has).
    rewrite Heq. cbn [fst snd].
    assert (Hst : (exit_status r = 0%Z \/ exit_status r = 1%Z) /\
                  (exit_status r = 0%Z ->
                   db_reachable e = true /\ is_Some (migrations_dir e))).
    { inversion Has; subst; simpl.
      - split; [now right | discriminate].
      - split; [now right | discriminate].
      - split; [now left | eauto].
      - destruct (Nat.eqb _ _); (split; [auto | eauto; discriminate]). }
    destruct Hst as [H01 H0].
    split; [tauto|]. split; [|split; [|split]].
    + split; [|discriminate]. intros H2. destruct H01 as [H|H]; congruence.
    + intros H. right. split; [eauto | now apply H0].
    + intros [H|H]; discriminate H.
    + intros d [= <-]. now rewrite Heq.
  - split; [now left|]. split; [split; discriminate|].
    split; [now left|]. split; [reflexivity | discriminate].
  - split; [now right; right|]. split; [split; reflexivity|].
    split; [discriminate|]. split; [reflexivity | discriminate].
Qed.

(** X2. When the migrations directory is missing, a run that obtained
    its connection prints the error and exits through [sys.exit(1)]
    without sending any query; when the connection cannot be obtained
    either, the run returns 1 on the connection error and never looks at
    the directory. *)
Theorem missing_directory_is_fatal (dry_run : bool) (e : env) (s : state) :
  migrations_dir e = None ->
  (db_reachable e = true ->
   run_migrations dry_run e s
   = (State (committed s) Idle
        (log s ++ banner dry_run ++ [EvConnect; Print Connected; Print DirNotFound]),
      Raise (SystemExit 1)) /\
   (main (Flags dry_run) e s).2 = 1%Z /\
   Forall (fun ev => is_query ev = false)
          (banner dry_run ++ [EvConnect; Print Connected; Print DirNotFound])) /\
  (db_reachable e = false ->
   run_migrations dry_run e s
   = (push s (banner dry_run
              ++ [Print (ErrConnect OperationalError); Print ErrConnectDetails;
                  Print (FailedToConnect (Psycopg2Error OperationalError))]),
      Ok 1%Z) /\
   Print DirNotFound
     ∉ banner dry_run
       ++ [Print (ErrConnect OperationalError); Print ErrConnectDetails;
           Print (FailedToConnect (Psycopg2Error OperationalError))]).
Proof.
  intros Hdir. split.
  - intros Hdb. pose proof (run_migrations_no_directory dry_run e s Hdb Hdir) as Hrun.
    split; [exact Hrun|]. split.
    + unfold main, parse_args. unfold_m. now rewrite Hrun.
    + destruct dry_run; repeat constructor.
  - intros Hdb. split; [now apply run_migrations_unreachable|].
    intros Hin. destruct dry_run; simpl in Hin;
      repeat (apply elem_of_cons in Hin as [Hin|Hin]; [discriminate|]);
      inversion Hin.
Qed.

(** X3. The connection is closed exactly by the runs that reach the
    loop: a run that obtains its connection and then finds no directory
    or no migration file returns without closing it. *)
Theorem connection_closed_only_after_loop (dry_run : bool) (e : env)
    (s s' : state) (r : result Z) (delta : list event) :
  run_migrations dry_run e s = (s', r) ->
  log s' = log s ++ delta ->
  (EvConnect ∈ delta <-> db_reachable e = true) /\
  (EvClose ∈ delta <->
   db_reachable e = true /\
   exists dir, migrations_dir e = Some dir /\ list_sql dir <> []).
Proof.
  intros Hrun Hlog.
  destruct (run_migrations_as dry_run e s) as (s1 & r1 & Heq & Has).
  rewrite Hrun in Heq. injection Heq as <- <-.
  inversion Has as [Hdb|Hdb Hdir|dir Hdb Hdir Hnil|dir os s2 Hdb Hdir Hne Hloop]; subst.
  - unfold push in Hlog. cbn [log] in Hlog. apply app_inv_head in Hlog. subst delta.
    split; (split; [|intros H; destruct_and?; congruence]).
    all: intros Hin; exfalso; destruct dry_run; simpl in Hin;
      repeat (apply elem_of_cons in Hin as [Hin|Hin]; [discriminate|]);
      inversion Hin.
  - cbn [log] in Hlog. apply app_inv_head in Hlog. subst delta. split.
    + split; [auto|]. intros _. apply elem_of_app. right. apply elem_of_cons. now left.
    + split; [|intros (_ & dir & ? & _); congruence].
      intros Hin; exfalso; destruct dry_run; simpl in Hin;
        repeat (apply elem_of_cons in Hin as [Hin|Hin]; [discriminate|]);
        inversion Hin.
  - cbn [log] in Hlog. apply app_inv_head in Hlog. subst delta. split.
    + split; [auto|]. intros _. apply elem_of_app. right. apply elem_of_cons. now left.
    + split; [|intros (_ & dir' & ? & ?); congruence].
      intros Hin; exfalso; destruct dry_run; simpl in Hin;
        repeat (apply elem_of_cons in Hin as [Hin|Hin]; [discriminate|]);
        inversion Hin.
  - destruct (loop_run_log _ _ _ _ _ _ _ Hloop) as (dl & Hdl & _).
    cbn [log] in Hlog. rewrite (run_loop_log _ _ _ _ _ _ _ Hdl) in Hlog.
    apply app_inv_head in Hlog. subst delta. split.
    + split; [auto|]. intros _. unfold preamble. apply elem_of_app. left.
      apply elem_of_app. right. apply elem_of_cons. now left.
    + split; [intros _; split; [assumption | now exists dir]|].
      intros _. apply elem_of_app. right. apply elem_of_app. right.
      unfold summary. apply elem_of_app. right.
      apply elem_of_app. right. apply elem_of_cons. now left.
Qed.

(** *** The bookkeeping table *)

Lemma ensure_table_twice (d : db) : ensure_table (ensure_table d) = ensure_table d.
Proof. unfold ensure_table. destruct (migrations_table d) eqn:Hd; simpl; now rewrite ?Hd. Qed.

Lemma exec_result_view (q : query) (s : state) :
  txn s <> Aborted ->
  exec_result q (committed s) (txn s) = run_query q (committed s) (view s).
Proof. unfold view. destruct (txn s); simpl; congruence. Qed.

(** X4. [create_migrations_table] followed by itself is the same as
    once: it makes durable what the open transaction holds, with the
    bookkeeping table created empty if it was absent and every row and
    every other object kept; a second call changes nothing. On an
    aborted transaction it raises and commits nothing. *)
Theorem create_migrations_table_is_idempotent (s : state) :
  (txn s <> Aborted ->
   create_migrations_table s
   = (State (ensure_table (view s)) Idle
        (log s ++ [EvExecuted CreateMigrationsTable; EvCommit]),
      Ok tt) /\
   is_Some (migrations_table (ensure_table (view s))) /\
   recorded (ensure_table (view s)) = recorded (view s) /\
   user_schema (ensure_table (view s)) = user_schema (view s) /\
   committed (create_migrations_table (create_migrations_table s).1).1
   = committed (create_migrations_table s).1) /\
  (txn s = Aborted ->
   create_migrations_table s
   = (State (committed s) Aborted
        (log s ++ [EvExecuteFailed CreateMigrationsTable InFailedSqlTransaction]),
      Raise (Psycopg2Error InFailedSqlTransaction))).
Proof.
  assert (Hrun : forall s0 : state, txn s0 <> Aborted ->
            create_migrations_table s0
            = (State (ensure_table (view s0)) Idle
                 (log s0 ++ [EvExecuted CreateMigrationsTable; EvCommit]),
               Ok tt)).
  { intros s0 Hs0. unfold create_migrations_table, cursor_execute, commit. unfold_m.
    rewrite (exec_result_view _ _ Hs0). unfold run_query, ensure_table.
    destruct (migrations_table (view s0)); simpl; now rewrite <- app_assoc. }
  split.
  - intros Hs. split; [now apply Hrun|]. split; [|split; [|split]].
    + unfold ensure_table. destruct (migrations_table (view s)) eqn:Hv; simpl;
        [rewrite Hv|]; eauto.
    + apply recorded_ensure_table.
    + apply user_schema_ensure_table.
    + rewrite (Hrun s Hs). cbn [fst]. rewrite Hrun by discriminate.
      cbn [fst committed view txn]. apply ensure_table_twice.
  - intros Hs. unfold create_migrations_table, cursor_execute. unfold_m.
    rewrite Hs. reflexivity.
Qed.

(** X5. A record inserted by [mark_migration_applied] is found by the
    next [get_applied_migrations], together with the rows that were
    there; the insertion keeps every other object, and inserting an
    identity that is already recorded changes nothing (ON CONFLICT DO
    NOTHING). *)
Theorem mark_then_load_round_trip (migration_id : string) (s : state)
    (rows : gset string) :
  txn s <> Aborted ->
  migrations_table (view s) = Some rows ->
  String.length migration_id <= 255 ->
  exists s1 s2,
    mark_migration_applied migration_id s = (s1, Ok tt) /\
    committed s1 = DbState (Some ({[migration_id]} ∪ rows)) (user_schema (view s)) /\
    txn s1 = Idle /\
    get_applied_migrations s1 = (s2, Ok ({[migration_id]} ∪ rows)) /\
    committed s2 = committed s1 /\
    (migration_id ∈ rows -> committed s1 = view s).
Proof.
  intros Hs Hrows Hlen.
  assert (Hlt : Nat.ltb 255 (String.length migration_id) = false)
    by (apply Nat.ltb_ge; lia).
  eexists (State _ Idle _), _. split; [|split; [|split; [|split; [|split]]]].
  - unfold mark_migration_applied, cursor_execute, commit. unfold_m.
    rewrite (exec_result_view _ _ Hs). unfold run_query. rewrite Hrows, Hlt.
    simpl. rewrite <- app_assoc. reflexivity.
  - reflexivity.
  - reflexivity.
  - rewrite get_applied_migrations_spec. unfold recorded, ensure_table. simpl.
    reflexivity.
  - reflexivity.
  - intros Hin. simpl.
    replace ({[migration_id]} ∪ rows) with rows
      by (apply set_eq; intros x; rewrite elem_of_union, elem_of_singleton;
          split; [auto | intros [->|?]; auto]).
    rewrite <- Hrows. now destruct (view s).
Qed.

(** X6. [mark_migration_applied] has no handler of its own: when the
    bookkeeping table is absent, or the transaction it is called in is
    already aborted, the error of the insertion reaches the caller; and
    whenever it raises, the commit was not reached, nothing was made
    durable and the transaction is left aborted. *)
Theorem mark_errors_abort_transaction (migration_id : string) (s : state) :
  (txn s <> Aborted ->
   migrations_table (view s) = None ->
   mark_migration_applied migration_id s
   = (State (committed s) Aborted
        (log s ++ [EvExecuteFailed (InsertMigration migration_id) UndefinedTable]),
      Raise (Psycopg2Error UndefinedTable))) /\
  (txn s = Aborted ->
   mark_migration_applied migration_id s
   = (State (committed s) Aborted
        (log s ++ [EvExecuteFailed (InsertMigration migration_id)
                     InFailedSqlTransaction]),
      Raise (Psycopg2Error InFailedSqlTransaction))) /\
  (forall s' ex,
     mark_migration_applied migration_id s = (s', Raise ex) ->
     committed s' = committed s /\
     txn s' = Aborted /\
     exists err,
       ex = Psycopg2Error err /\
       log s' = log s ++ [EvExecuteFailed (InsertMigration migration_id) err]).
Proof.
  split; [|split].
  - intros Hs Hnone. unfold mark_migration_applied, cursor_execute. unfold_m.
    rewrite (exec_result_view _ _ Hs). unfold run_query. now rewrite Hnone.
  - intros Hs. unfold mark_migration_applied, cursor_execute. unfold_m.
    rewrite Hs. reflexivity.
  - intros s' ex. unfold mark_migration_applied, cursor_execute, commit. unfold_m.
    pose proof (run_query_durable (InsertMigration migration_id) (committed s)) as Hd.
    destruct (txn s) as [|w|]; unfold exec_result.
    + specialize (Hd (committed s)).
      destruct (run_query _ _ _) as [d [err|[w' rows]]]; simpl in *;
        [|discriminate].
      intros [= <- <-]. rewrite Hd by discriminate. simpl. eauto.
    + specialize (Hd w).
      destruct (run_query _ _ _) as [d [err|[w' rows]]]; simpl in *;
        [|discriminate].
      intros [= <- <-]. rewrite Hd by discriminate. simpl. eauto.
    + intros [= <- <-]. simpl. eauto.
Qed.

(** *** Applying one migration *)

(** X7. What [apply_migration] returns agrees with what it did: whenever
    it returns, it has printed the migration's name and opened the file
    and it leaves no transaction open; [False] means that it rolled
    back, [True] that the record was inserted and the success line
    printed. *)
Theorem apply_migration_result_matches_log (e : env) (f : string)
    (s s' : state) (b : bool) :
  apply_migration e f s = (s', Ok b) ->
  exists delta,
    txn s' = Idle /\
    log s' = log s ++ Print (Applying f) :: EvOpen f :: delta /\
    (b = false <-> EvRollback ∈ delta) /\
    (b = true <-> Print (Success f) ∈ delta) /\
    (b = true <-> EvExecuted (InsertMigration (extract_migration_id f)) ∈ delta).
Proof.
  intros Hrun.
  destruct (apply_migration_spec e f s) as (s1 & b1 & Heq & Has).
  rewrite Hrun in Heq. injection Heq as <- <-.
  inversion Has; subst; eexists; (split; [reflexivity|]); (split; [reflexivity|]).
  all: split; [|split]; split.
  all: first
    [ discriminate
    | intros _; reflexivity
    | solve [intros _;
             repeat first [apply list_elem_of_here | apply list_elem_of_further]]
    | intros Hin; exfalso;
      repeat (apply elem_of_cons in Hin as [Hin|Hin]; [discriminate|]);
      inversion Hin ].
Qed.

(** X8. A [False] from [apply_migration] does not mean that nothing
    happened: when the script runs and commits but its record cannot be
    inserted (the script dropped the bookkeeping table, or the identity
    is longer than 255 characters), the script's effect stays committed
    and unrecorded. *)
Theorem committed_script_may_stay_unrecorded (e : env) (f sql : string)
    (s : state) (d0 d1 : db) (rows : list string) (err : psycopg2_error) :
  read_file e f = inr sql ->
  exec_result (Script sql) (committed s) (txn s) = (d0, inr (d1, rows)) ->
  (run_query (InsertMigration (extract_migration_id f)) d1 d1).2 = inl err ->
  apply_migration e f s
  = (State d1 Idle
       (log s ++ [Print (Applying f); EvOpen f; EvExecuted (Script sql); EvCommit;
                  EvExecuteFailed (InsertMigration (extract_migration_id f)) err;
                  EvRollback; Print (FailedToApply f err)]),
     Ok false) /\
  (migrations_table d1 = None /\ err = UndefinedTable \/
   255 < String.length (extract_migration_id f) /\ err = StringDataRightTruncation).
Proof.
  intros Hread Hexec Hins. split.
  - destruct (apply_migration_spec e f s) as (s' & b & Heq & Has).
    rewrite Heq. inversion Has; subst; congruence.
  - unfold run_query in Hins. destruct (migrations_table d1) as [t|].
    + destruct (Nat.ltb 255 _) eqn:Hlt; [|discriminate].
      injection Hins as <-. right. split; [now apply Nat.ltb_lt | reflexivity].
    + injection Hins as <-. now left.
Qed.

(** *** Identities and the catalog *)

Lemma rfind_dot_trailing (base : string) :
  Filename.rfind_dot (base +:+ ".") = Some (String.length base).
Proof.
  induction base as [|c base IH]; simpl; [reflexivity | now rewrite IH].
Qed.

Lemma NoDup_fmap_inj_on {A B} (f : A -> B) (l : list A) (x y : A) :
  NoDup (f <$> l) -> x ∈ l -> y ∈ l -> f x = f y -> x = y.
Proof.
  induction l as [|a l IH]; intros Hnd Hx Hy Heq; [inversion Hx|].
  rewrite fmap_cons in Hnd. apply NoDup_cons in Hnd as [Hna Hnd].
  apply elem_of_cons in Hx as [->|Hx]; apply elem_of_cons in Hy as [->|Hy]; auto.
  - exfalso. apply Hna. rewrite Heq. now apply list_elem_of_fmap_2.
  - exfalso. apply Hna. rewrite <- Heq. now apply list_elem_of_fmap_2.
Qed.

(** The identity of a catalog file, from its name. *)
Lemma catalog_identity (dir : gmap string file) (name : string) :
  name ∈ list_sql dir ->
  name = ".sql" /\ extract_migration_id name = ".sql" \/
  name <> ".sql" /\ name = extract_migration_id name +:+ ".sql".
Proof.
  intros Hin. apply CatalogFacts.elem_of_list_sql in Hin as [_ Hm].
  apply FilenameFacts.matches_sql_spec in Hm as [base ->].
  destruct base as [|c base]; [now left|]. right. split; [|].
  - intros Heq. apply (f_equal String.length) in Heq.
    rewrite FilenameFacts.length_app in Heq. simpl in Heq. lia.
  - unfold extract_migration_id. now rewrite FilenameFacts.stem_sql.
Qed.

(** X9. The identities of the files of a catalog are pairwise distinct
    unless the directory holds both a file named [.sql] and a file named
    [.sql.sql], which are the one pair of catalog names with the same
    identity. *)
Theorem identities_distinct_unless_bare_extension (dir : gmap string file) :
  NoDup (extract_migration_id <$> list_sql dir) <->
  ~ (is_Some (dir !! ".sql") /\ is_Some (dir !! ".sql.sql")).
Proof.
  pose proof (catalog_identity dir) as Hid.
  split.
  - intros Hnd [H1 H2].
    assert (Hin1 : ".sql" ∈ list_sql dir)
      by (apply CatalogFacts.elem_of_list_sql; split; [exact H1 | reflexivity]).
    assert (Hin2 : ".sql.sql" ∈ list_sql dir)
      by (apply CatalogFacts.elem_of_list_sql; split; [exact H2 | reflexivity]).
    pose proof (NoDup_fmap_inj_on _ _ _ _ Hnd Hin1 Hin2 eq_refl). discriminate.
  - intros Hnot. apply NoDup_fmap_2_strong; [|apply CatalogFacts.NoDup_list_sql].
    intros x y Hx Hy Heq.
    assert (His : forall name, name ∈ list_sql dir -> is_Some (dir !! name))
      by (intros name Hn; now apply CatalogFacts.elem_of_list_sql in Hn as [? _]).
    destruct (Hid x Hx) as [[-> Hx1]|[Hx1 Hx2]], (Hid y Hy) as [[-> Hy1]|[Hy1 Hy2]].
    + reflexivity.
    + exfalso. apply Hnot. split; [now apply His|].
      rewrite Hy2, <- Heq, Hx1 in Hy. now apply His.
    + exfalso. apply Hnot. split; [now apply His|].
      rewrite Hx2, Heq, Hy1 in Hx. now apply His.
    + now rewrite Hx2, Hy2, Heq.
Qed.

(** X10. Every file of a catalog has an identity that is not empty: its
    name without the final [.sql], except for the file named [.sql]
    itself, whose identity is its whole name; so a run never looks up or
    inserts an empty identity. *)
Theorem identity_is_never_empty (e : env) (dir : gmap string file) :
  migrations_dir e = Some dir ->
  (forall f,
     f ∈ list_sql dir ->
     extract_migration_id f <> "" /\
     (f <> ".sql" -> f = extract_migration_id f +:+ ".sql") /\
     (f = ".sql" -> extract_migration_id f = ".sql")) /\
  (forall dry_run s s' r delta ev migration_id,
     run_migrations dry_run e s = (s', r) ->
     log s' = log s ++ delta ->
     ev ∈ delta ->
     insert_of ev = Some migration_id ->
     migration_id <> "").
Proof.
  intros Hdir.
  assert (Hcat : forall f,
            f ∈ list_sql dir ->
            extract_migration_id f <> "" /\
            (f <> ".sql" -> f = extract_migration_id f +:+ ".sql") /\
            (f = ".sql" -> extract_migration_id f = ".sql")).
  { intros f Hin. destruct (catalog_identity dir f Hin) as [[-> Hid]|[Hne Hid]].
    - rewrite Hid. split; [discriminate|]. split; [congruence | reflexivity].
    - split; [|split; [intros _; exact Hid | contradiction]].
      intros Hempty. rewrite Hempty in Hid. now apply Hne. }
  split; [exact Hcat|].
  intros dry_run s s' r delta ev migration_id Hrun Hlog Hin Hins.
  destruct (run_migrations_as dry_run e s) as (s1 & r1 & Heq & Has).
  rewrite Hrun in Heq. injection Heq as <- <-.
  destruct (run_as_log _ _ _ _ _ Has) as (delta' & Hlog' & Hm & _ & _ & _ & Hfiles).
  rewrite Hlog in Hlog'. apply app_inv_head in Hlog'. subst delta'.
  destruct (Hfiles dir Hdir) as (rest & Hsql & Hnames & _).
  apply list_elem_of_split in Hin as (pre & post & ->).
  destruct (Hm pre ev post migration_id eq_refl Hins)
    as (pre' & f & sql & -> & Hid & _).
  subst migration_id. apply Hcat. rewrite Hsql. apply elem_of_app. left.
  rewrite Forall_forall in Hnames. apply (Hnames (EvOpen f)).
  - apply elem_of_app. left. apply elem_of_app. right. apply list_elem_of_here.
  - apply list_elem_of_here.
Qed.

(** X11. The catalog depends only on which [.sql] names the directory
    holds: the contents and readability of the files, and every entry
    with another extension, make no difference to it. *)
Theorem catalog_depends_only_on_sql_names (dir1 dir2 : gmap string file) :
  (forall name,
     Filename.matches_sql name = true ->
     (is_Some (dir1 !! name) <-> is_Some (dir2 !! name))) ->
  list_sql dir1 = list_sql dir2.
Proof.
  intros Hsame.
  apply (StronglySorted_unique Filename.name_le);
    try apply CatalogFacts.StronglySorted_list_sql.
  apply NoDup_Permutation; try apply CatalogFacts.NoDup_list_sql.
  intros name. rewrite !CatalogFacts.elem_of_list_sql.
  split; intros [Hs Hm]; (split; [|exact Hm]); now apply (Hsame name Hm).
Qed.

(** *** A dry run and the run it announces *)

Lemma pending_cons (applied : gset string) (f : string) (files : list string) :
  pending applied (f :: files)
  = if decide (extract_migration_id f ∈ applied) then pending applied files
    else f :: pending applied files.
Proof.
  unfold pending. rewrite filter_cons.
  destruct (decide (extract_migration_id f ∈ applied));
    destruct (decide (extract_migration_id f ∉ applied)); try reflexivity; tauto.
Qed.

Lemma applied_as_opened (e : env) (f : string) (s s1 : state) (b : bool) :
  applied_as e f s s1 b ->
  exists delta, log s1 = log s ++ delta /\ opened delta = [f] /\ announced delta = [].
Proof.
  intros Has. inversion Has; subst; eexists; (split; [reflexivity|]); now split.
Qed.

Lemma quiet_opened (l : list event) :
  Forall (fun ev => quiet ev = true) l -> opened l = [] /\ announced l = [].
Proof.
  induction 1 as [|ev l Hev _ [IH1 IH2]]; [now split|].
  destruct ev as [[]| | | | | | |]; try discriminate;
    (split; [exact IH1 | exact IH2]).
Qed.

(** What a pass opens and announces, against the pending migrations. *)
Lemma loop_run_opened (dry_run : bool) (e : env) (applied : gset string)
    (files : list string) (s s' : state) (os : list (string * outcome)) :
  loop_run dry_run e applied files s os s' ->
  exists delta,
    log s' = log s ++ delta /\
    (dry_run = true ->
     announced delta = pending applied files /\ opened delta = [] /\
     applied_total os = length (pending applied files)) /\
    (dry_run = false ->
     announced delta = [] /\
     exists rest,
       pending applied files = opened delta ++ rest /\
       (failed_total os = 0 -> rest = []) /\
       applied_total os + failed_total os = length (opened delta)).
Proof.
  induction 1 as [s|f rest s os s' Hin Hrun IH|f rest s os s' Hout Hdry Hrun IH
                 |f rest s s1 os s' Hout Hdry Has Hrun IH|f rest s s1 Hout Hdry Has].
  - exists []. rewrite app_nil_r. split; [reflexivity|]. split.
    + intros _. now repeat split.
    + intros _. split; [reflexivity|]. exists []. now repeat split.
  - destruct IH as (delta & Hlog & IHd & IHr). simpl in Hlog. rewrite <- app_assoc in Hlog.
    exists (Print (Skipping f) :: delta). split; [exact Hlog|].
    rewrite pending_cons, applied_total_cons, failed_total_cons.
    destruct (decide _) as [_|?]; [|contradiction]. simpl. split.
    + intros Hd. exact (IHd Hd).
    + intros Hd. exact (IHr Hd).
  - destruct IH as (delta & Hlog & IHd & _). simpl in Hlog. rewrite <- app_assoc in Hlog.
    exists (Print (WouldApply f) :: delta). split; [exact Hlog|].
    rewrite pending_cons, applied_total_cons, failed_total_cons.
    destruct (decide _) as [?|_]; [contradiction|]. simpl. split; [|congruence].
    intros _. destruct (IHd Hdry) as (Ha & Ho & Hn).
    unfold announced, opened in *. simpl. now rewrite Ha, Ho, Hn.
  - destruct IH as (delta & Hlog & _ & IHr).
    destruct (applied_as_opened _ _ _ _ _ Has) as (d1 & Hlog1 & Ho1 & Ha1).
    exists (d1 ++ delta). rewrite Hlog, Hlog1, <- app_assoc. split; [reflexivity|].
    rewrite pending_cons, applied_total_cons, failed_total_cons.
    destruct (decide _) as [?|_]; [contradiction|]. simpl. split; [congruence|].
    intros _. destruct (IHr Hdry) as (Ha & rest' & Hp & Hz & Hn).
    unfold announced, opened in *. rewrite !omap_app, Ha1, Ha, Ho1.
    split; [reflexivity|]. exists rest'. simpl. rewrite Hp.
    repeat split; [exact Hz | simpl; lia].
  - destruct (applied_as_opened _ _ _ _ _ Has) as (d1 & Hlog1 & Ho1 & Ha1).
    exists (d1 ++ [Print Stopping]). simpl. rewrite Hlog1, <- app_assoc.
    split; [reflexivity|].
    rewrite pending_cons, applied_total_cons, failed_total_cons.
    destruct (decide _) as [?|_]; [contradiction|]. simpl. split; [congruence|].
    intros _. unfold announced, opened in *. rewrite !omap_app, Ha1, Ho1. simpl.
    split; [reflexivity|]. exists (pending applied rest).
    unfold applied_total, failed_total. simpl. repeat split. lia.
Qed.

(** X12. A dry run announces, in catalog order, exactly the migrations
    whose identity is not recorded, opens none of them and prints their
    number; a run on the same database that is not dry opens an initial
    segment of that list, in that order and each file once, and all of
    it when it returns 0. *)
Theorem dry_run_previews_real_run (e : env) (dir : gmap string file) (s : state) :
  db_reachable e = true ->
  migrations_dir e = Some dir ->
  (forall s' r delta,
     run_migrations true e s = (s', r) ->
     log s' = log s ++ delta ->
     announced delta = pending (recorded (committed s)) (list_sql dir) /\
     opened delta = [] /\
     (list_sql dir <> [] ->
      Print (WouldApplyCount
               (length (pending (recorded (committed s)) (list_sql dir)))) ∈ delta)) /\
  (forall s' r delta,
     run_migrations false e s = (s', r) ->
     log s' = log s ++ delta ->
     announced delta = [] /\
     NoDup (opened delta) /\
     exists rest,
       pending (recorded (committed s)) (list_sql dir) = opened delta ++ rest /\
       (r = Ok 0%Z -> rest = [])).
Proof.
  intros Hdb Hdir.
  assert (Hcases : forall dry_run s' r delta,
            run_migrations dry_run e s = (s', r) ->
            log s' = log s ++ delta ->
            (list_sql dir = [] /\ opened delta = [] /\ announced delta = [] /\ r = Ok 0%Z) \/
            (list_sql dir <> [] /\
             exists os s2 dl,
               loop_run dry_run e (recorded (committed s)) (list_sql dir)
                 (loop_start dry_run (length (list_sql dir)) s) os s2 /\
               log s2 = log (loop_start dry_run (length (list_sql dir)) s) ++ dl /\
               opened delta = opened dl /\ announced delta = announced dl /\
               r = Ok (if Nat.eqb (failed_total os) 0 then 0%Z else 1%Z) /\
               forall ev, ev ∈ summary dry_run (applied_total os) (failed_total os) ->
                          ev ∈ delta)).
  { intros dry_run s' r delta Hrun Hlog.
    destruct (run_migrations_as dry_run e s) as (s1 & r1 & Heq & Has).
    rewrite Hrun in Heq. injection Heq as <- <-.
    inversion Has as [Hdb'|Hdb' Hdir'|dir' Hdb' Hdir' Hnil|dir' os s2 Hdb' Hdir' Hne Hloop];
      subst; try congruence.
    - rewrite Hdir in Hdir'. injection Hdir' as <-. left.
      cbn [log] in Hlog. apply app_inv_head in Hlog. subst delta.
      destruct (quiet_opened (banner dry_run ++ [EvConnect; Print Connected; Print NoFilesFound]))
        as [Ho Ha]; [apply Forall_app; split; [apply quiet_banner | repeat constructor]|].
      auto.
    - rewrite Hdir in Hdir'. injection Hdir' as <-. right. split; [exact Hne|].
      destruct (loop_run_log _ _ _ _ _ _ _ Hloop) as (dl & Hdl & _).
      exists os, s2, dl. split; [exact Hloop|]. split; [exact Hdl|].
      cbn [log] in Hlog. rewrite (run_loop_log _ _ _ _ _ _ _ Hdl) in Hlog.
      apply app_inv_head in Hlog. subst delta.
      destruct (quiet_opened _ (quiet_preamble dry_run (length (list_sql dir))
                                  (size (recorded (committed s))))) as [Ho1 Ha1].
      destruct (quiet_opened _ (quiet_summary dry_run (applied_total os) (failed_total os)))
        as [Ho2 Ha2].
      split; [|split; [|split; [reflexivity|]]].
      + unfold opened in *. now rewrite !omap_app, Ho1, Ho2, app_nil_r.
      + unfold announced in *. now rewrite !omap_app, Ha1, Ha2, app_nil_r.
      + intros ev Hev. apply elem_of_app. right. apply elem_of_app. now right. }
  split.
  - intros s' r delta Hrun Hlog.
    destruct (Hcases true s' r delta Hrun Hlog)
      as [(Hnil & Ho & Ha & _)|(Hne & os & s2 & dl & Hloop & Hdl & Ho & Ha & _ & Hsum)].
    + rewrite Hnil, Ho, Ha. repeat split. congruence.
    + destruct (loop_run_opened _ _ _ _ _ _ _ Hloop) as (dl' & Hdl' & Hd & _).
      rewrite Hdl in Hdl'. apply app_inv_head in Hdl'. subst dl'.
      destruct (Hd eq_refl) as (Ha' & Ho' & Hn).
      rewrite Ho, Ha, Ha', Ho'. repeat split. intros _. apply Hsum.
      rewrite Hn. unfold summary. apply elem_of_app. right.
      apply elem_of_app. left. apply elem_of_cons. now left.
  - intros s' r delta Hrun Hlog.
    pose proof (CatalogFacts.NoDup_list_sql dir) as Hnd.
    destruct (Hcases false s' r delta Hrun Hlog)
      as [(Hnil & Ho & Ha & _)|(Hne & os & s2 & dl & Hloop & Hdl & Ho & Ha & Hr & _)].
    + rewrite Hnil, Ho, Ha. split; [reflexivity|]. split; [constructor|].
      exists []. now split.
    + destruct (loop_run_opened _ _ _ _ _ _ _ Hloop) as (dl' & Hdl' & _ & Hd).
      rewrite Hdl in Hdl'. apply app_inv_head in Hdl'. subst dl'.
      destruct (Hd eq_refl) as (Ha' & rest & Hp & Hz & _).
      rewrite Ho, Ha, Ha'. split; [reflexivity|].
      assert (Hndp : NoDup (pending (recorded (committed s)) (list_sql dir)))
        by (apply NoDup_filter; exact Hnd).
      rewrite Hp in Hndp. split; [now apply NoDup_app in Hndp as [? _]|].
      exists rest. split; [exact Hp|]. intros Hok. apply Hz.
      rewrite Hr in Hok. destruct (failed_total os); [reflexivity | discriminate].
Qed.

(** *** Running again after a failure *)









(** *** The summary *)

Lemma applied_as_tally (e : env) (f : string) (s s1 : state) (b : bool) :
  applied_as e f s s1 b ->
  exists delta,
    log s1 = log s ++ delta /\ totals_printed delta = [] /\
    succeeded delta = if b then [f] else [].
Proof.
  intros Has. inversion Has; subst; eexists; (split; [reflexivity|]); now split.
Qed.

Lemma loop_run_tally (dry_run : bool) (e : env) (applied : gset string)
    (files : list string) (s s' : state) (os : list (string * outcome)) :
  loop_run dry_run e applied files s os s' ->
  exists delta,
    log s' = log s ++ delta /\ totals_printed delta = [] /\
    (dry_run = true -> succeeded delta = []) /\
    (dry_run = false -> length (succeeded delta) = applied_total os).
Proof.
  induction 1 as [s|f rest s os s' Hin Hrun IH|f rest s os s' Hout Hdry Hrun IH
                 |f rest s s1 os s' Hout Hdry Has Hrun IH|f rest s s1 Hout Hdry Has].
  - exists []. rewrite app_nil_r. now repeat split.
  - destruct IH as (delta & Hlog & Ht & Hd & Hs). simpl in Hlog.
    rewrite <- app_assoc in Hlog.
    exists (Print (Skipping f) :: delta). split; [exact Hlog|].
    rewrite applied_total_cons. split; [exact Ht|]. split; [exact Hd | exact Hs].
  - destruct IH as (delta & Hlog & Ht & Hd & _). simpl in Hlog.
    rewrite <- app_assoc in Hlog.
    exists (Print (WouldApply f) :: delta). split; [exact Hlog|].
    split; [exact Ht|]. split; [exact Hd | congruence].
  - destruct IH as (delta & Hlog & Ht & _ & Hs).
    destruct (applied_as_tally _ _ _ _ _ Has) as (d1 & Hlog1 & Ht1 & Hs1).
    exists (d1 ++ delta). rewrite Hlog, Hlog1, <- app_assoc. split; [reflexivity|].
    unfold totals_printed, succeeded in *. rewrite !omap_app, Ht1, Ht, Hs1.
    split; [reflexivity|]. split; [congruence|].
    intros Hd. rewrite applied_total_cons. simpl. now rewrite (Hs Hd).
  - destruct (applied_as_tally _ _ _ _ _ Has) as (d1 & Hlog1 & Ht1 & Hs1).
    exists (d1 ++ [Print Stopping]). simpl. rewrite Hlog1, <- app_assoc.
    split; [reflexivity|].
    unfold totals_printed, succeeded in *. rewrite !omap_app, Ht1, Hs1.
    split; [reflexivity|]. split; [congruence|]. intros _. reflexivity.
Qed.

Lemma tally_banner (dry_run : bool) :
  totals_printed (banner dry_run) = [] /\ succeeded (banner dry_run) = [].
Proof. now destruct dry_run. Qed.

Lemma tally_preamble (dry_run : bool) (found already : nat) :
  totals_printed (preamble dry_run found already) = [] /\
  succeeded (preamble dry_run found already) = [].
Proof. now destruct dry_run. Qed.

Lemma tally_summary (dry_run : bool) (a fc : nat) :
  totals_printed (summary dry_run a fc)
  = (if dry_run then [WouldApplyCount a]
     else AppliedCount a :: (if Nat.ltb 0 fc then [FailedCount fc] else [])) /\
  succeeded (summary dry_run a fc) = [].
Proof. unfold summary. destruct dry_run; [now split|]. now destruct (Nat.ltb 0 fc). Qed.

(** A run that ends before the loop prints no count and closes nothing. *)
Lemma tally_early (dry_run : bool) (last : list event) :
  totals_printed last = [] -> succeeded last = [] -> EvClose ∉ last ->
  (EvClose ∉ banner dry_run ++ last) /\
  totals_printed (banner dry_run ++ last) = [] /\
  succeeded (banner dry_run ++ last) = [].
Proof.
  intros Ht Hs Hc. destruct (tally_banner dry_run) as [Hb1 Hb2].
  unfold totals_printed, succeeded in *. rewrite !omap_app, Hb1, Hb2, Ht, Hs.
  split; [|now split].
  intros Hin. apply elem_of_app in Hin as [Hin|Hin]; [|now apply Hc].
  destruct dry_run; simpl in Hin;
    repeat (apply elem_of_cons in Hin as [Hin|Hin]; [discriminate|]);
    inversion Hin.
Qed.

(** X14. The summary is printed exactly by the runs that reach the loop,
    and its counts agree with what the run logged: a dry run prints the
    number of migrations it announced; a run that is not dry prints the
    number of success lines, every file it opened succeeded when it
    returns 0, and when it returns 1 it also prints one failure, for the
    one opened file that has no success line. *)
Theorem summary_counts_match_log (dry_run : bool) (e : env) (s s' : state)
    (r : result Z) (delta : list event) :
  run_migrations dry_run e s = (s', r) ->
  log s' = log s ++ delta ->
  (EvClose ∉ delta) /\ totals_printed delta = [] /\ succeeded delta = [] \/
  EvClose ∈ delta /\
  (dry_run = true /\ r = Ok 0%Z /\
   totals_printed delta = [WouldApplyCount (length (announced delta))] /\
   succeeded delta = [] \/
   dry_run = false /\ r = Ok 0%Z /\
   totals_printed delta = [AppliedCount (length (succeeded delta))] /\
   length (opened delta) = length (succeeded delta) \/
   dry_run = false /\ r = Ok 1%Z /\
   totals_printed delta = [AppliedCount (length (succeeded delta)); FailedCount 1] /\
   length (opened delta) = S (length (succeeded delta))).
Proof.
  intros Hrun Hlog.
  destruct (run_migrations_as dry_run e s) as (s1 & r1 & Heq & Has).
  rewrite Hrun in Heq. injection Heq as <- <-.
  inversion Has as [Hdb|Hdb Hdir|dir Hdb Hdir Hnil|dir os s2 Hdb Hdir Hne Hloop]; subst.
  - left. unfold push in Hlog. cbn [log] in Hlog. apply app_inv_head in Hlog.
    subst delta. apply tally_early; try reflexivity.
    intros Hin. repeat (apply elem_of_cons in Hin as [Hin|Hin]; [discriminate|]).
    inversion Hin.
  - left. cbn [log] in Hlog. apply app_inv_head in Hlog.
    subst delta. apply tally_early; try reflexivity.
    intros Hin. repeat (apply elem_of_cons in Hin as [Hin|Hin]; [discriminate|]).
    inversion Hin.
  - left. cbn [log] in Hlog. apply app_inv_head in Hlog.
    subst delta. apply tally_early; try reflexivity.
    intros Hin. repeat (apply elem_of_cons in Hin as [Hin|Hin]; [discriminate|]).
    inversion Hin.
  - right.
    destruct (loop_run_tally _ _ _ _ _ _ _ Hloop) as (dl & Hdl & Ht & Hsd & Hsr).
    destruct (loop_run_opened _ _ _ _ _ _ _ Hloop) as (dl' & Hdl' & Hd & Hr).
    rewrite Hdl in Hdl'. apply app_inv_head in Hdl'. subst dl'.
    pose proof (failed_total_le _ _ _ _ _ _ _ Hloop) as Hle.
    cbn [log] in Hlog. rewrite (run_loop_log _ _ _ _ _ _ _ Hdl) in Hlog.
    apply app_inv_head in Hlog. subst delta.
    split.
    { apply elem_of_app. right. apply elem_of_app. right. unfold summary.
      apply elem_of_app. right. apply elem_of_app. right. apply list_elem_of_here. }
    destruct (tally_preamble dry_run (length (list_sql dir))
                (size (recorded (committed s)))) as [Hp1 Hp2].
    destruct (tally_summary dry_run (applied_total os) (failed_total os)) as [Hs1 Hs2].
    destruct (quiet_opened _ (quiet_preamble dry_run (length (list_sql dir))
                                (size (recorded (committed s))))) as [Hpo Hpa].
    destruct (quiet_opened _ (quiet_summary dry_run (applied_total os) (failed_total os)))
      as [Hso Hsa].
    unfold totals_printed, succeeded, opened, announced in *.
    rewrite !omap_app, Hp1, Hp2, Hs1, Hs2, Hpo, Hpa, Hso, Hsa, Ht, !app_nil_r.
    cbn [app].
    destruct dry_run.
    + left. destruct (Hd eq_refl) as (Ha & _ & Hn).
      destruct (loop_run_dry _ _ _ _ _ _ Hloop) as (_ & _ & Hf & _).
      rewrite Hf, (Hsd eq_refl), Ha, Hn. now repeat split.
    + right. destruct (Hr eq_refl) as (_ & rest & _ & _ & Hn).
      rewrite (Hsr eq_refl).
      destruct (failed_total os) as [|[|n]] eqn:Hf; [| |lia].
      * left. repeat split. lia.
      * right. repeat split. lia.
Qed.


(** *** Success lines and records *)



End RunnerFacts.

(** ** The model at work *)

Module Examples.
Import Toy.


Lemma pair_of_snd {A B} (p : A * B) (b : B) : p.2 = b -> p = (p.1, b).
Proof. destruct p. simpl. now intros ->. Defined.

(** The run over [dir_ab] on a fresh database, event by event. *)
Example run_ab_log :
  log (run_migrations false env_ab fresh).1
  = [Print Rule; Print Title; Print Rule; EvConnect; Print Connected;
     Print (Found 2); Print Blank;
     EvExecuted CreateMigrationsTable; EvCommit; EvExecuted SelectMigrationIds;
     Print (AlreadyApplied 0); Print Blank;
     Print (Applying "001_a.sql"); EvOpen "001_a.sql"; EvExecuted (Script "+a");
     EvCommit; EvExecuted (InsertMigration "001_a"); EvCommit;
     Print (Success "001_a.sql");
     Print (Applying "002_b.sql"); EvOpen "002_b.sql";
     EvExecuteFailed (Script "+b;+a") (ServerError (DuplicateObject "a"));
     EvRollback;
     Print (FailedToApply "002_b.sql" (ServerError (DuplicateObject "a")));
     Print Stopping;
     Print Blank; Print Rule; Print SummaryTitle; Print Rule;
     Print (AppliedCount 1); Print (FailedCount 1); EvClose].
Proof. reflexivity. Qed.

Lemma catalog_lists_sql_files_in_order_witness :
  migrations_dir env_ab = Some dir_ab /\
  list_sql dir_ab = ["001_a.sql"; "002_b.sql"] /\
  StronglySorted Filename.name_le (list_sql dir_ab).
Proof.
  split; [reflexivity|]. split; [reflexivity|].
  apply (catalog_lists_sql_files_in_order env_ab dir_ab eq_refl).
Defined.



(** The final clause of C2, read literally, fails when the database
    cannot be reached: the run logs no failed migration and returns 1. *)
Lemma exit_code_one_without_failed_migration :
  log (run_migrations false env_ok_offline fresh).1
  = [Print Rule; Print Title; Print Rule;
     Print (ErrConnect OperationalError); Print ErrConnectDetails;
     Print (FailedToConnect (Psycopg2Error OperationalError))] /\
  Forall (fun ev => reports_failure ev = false)
         (log (run_migrations false env_ok_offline fresh).1) /\
  exit_status (run_migrations false env_ok_offline fresh).2 = 1%Z.
Proof.
  assert (Hlog : log (run_migrations false env_ok_offline fresh).1
                 = [Print Rule; Print Title; Print Rule;
                    Print (ErrConnect OperationalError); Print ErrConnectDetails;
                    Print (FailedToConnect (Psycopg2Error OperationalError))])
    by reflexivity.
  split; [exact Hlog|]. split; [|reflexivity].
  rewrite Hlog. repeat constructor.
Qed.

Lemma stops_at_first_failure_witness :
  exists delta,
    log (run_migrations false env_ab fresh).1 = log fresh ++ delta /\
    length (filter (fun ev => reports_failure ev = true) delta) <= 1 /\
    scripts_follow_opens env_ab delta.
Proof.
  destruct (stops_at_first_failure env_ab fresh
              (run_migrations false env_ab fresh).1
              (run_migrations false env_ab fresh).2
              (surjective_pairing _))
    as (delta & Hlog & Hle & Hs & _).
  exists delta. auto.
Defined.

(** C3. On a database without the bookkeeping table the dry run prints
    that no changes will be made, and then creates the table and commits
    it on its way to the loop: the database it leaves is not the one it
    found. *)
Lemma dry_run_creates_bookkeeping_table :
  migrations_table (committed fresh) = None /\
  log (run_migrations true env_ab fresh).1
  = [Print Rule; Print Title; Print Rule; Print DryRunMode; Print Blank;
     EvConnect; Print Connected; Print (Found 2); Print Blank;
     EvExecuted CreateMigrationsTable; EvCommit; EvExecuted SelectMigrationIds;
     Print (AlreadyApplied 0); Print Blank;
     Print (WouldApply "001_a.sql"); Print (WouldApply "002_b.sql");
     Print Blank; Print Rule; Print SummaryTitle; Print Rule;
     Print (WouldApplyCount 2); EvClose] /\
  (run_migrations true env_ab fresh).2 = Ok 0%Z /\
  migrations_table (committed (run_migrations true env_ab fresh).1) = Some ∅ /\
  committed (run_migrations true env_ab fresh).1 <> committed fresh.
Proof.
  assert (H1 : migrations_table (committed fresh) = None) by reflexivity.
  assert (H2 : migrations_table (committed (run_migrations true env_ab fresh).1)
               = Some ∅) by reflexivity.
  split; [exact H1|]. split; [reflexivity|]. split; [reflexivity|].
  split; [exact H2|].
  intros Heq. rewrite Heq in H2. rewrite H1 in H2. discriminate H2.
Qed.

Lemma dry_run_changes_only_bookkeeping_table_witness :
  user_schema (committed (run_migrations true env_ab fresh).1)
  = user_schema (committed fresh) /\
  recorded (committed (run_migrations true env_ab fresh).1)
  = recorded (committed fresh).
Proof.
  destruct (dry_run_changes_only_bookkeeping_table env_ab fresh
              (run_migrations true env_ab fresh).1
              (run_migrations true env_ab fresh).2
              (surjective_pairing _))
    as (_ & Hu & Hr & _).
  auto.
Defined.

Lemma failed_script_is_rolled_back_witness :
  read_file env_ab "002_b.sql" = inr "+b;+a" /\
  txn with_a <> Aborted /\
  script_is_transactional "+b;+a" /\
  (exec_result (Script "+b;+a") (committed with_a) (txn with_a)).2
  = inl (ServerError (DuplicateObject "a")) /\
  (exec_result (Script "+b;+a") (committed with_a) (txn with_a)).1
  = committed with_a /\
  apply_migration env_ab "002_b.sql" with_a
  = (State (committed with_a) Idle
       (log with_a
        ++ [Print (Applying "002_b.sql"); EvOpen "002_b.sql";
            EvExecuteFailed (Script "+b;+a") (ServerError (DuplicateObject "a"));
            EvRollback;
            Print (FailedToApply "002_b.sql" (ServerError (DuplicateObject "a")))]),
     Ok false).
Proof.
  assert (Hcreate : forall obj, transactional (Create obj)).
  { intros obj d w. simpl. now destruct (decide _). }
  assert (Htr : script_is_transactional "+b;+a").
  { intros stmts Hparse.
    assert (Hq : parse_sql "+b;+a" = inr [Create "b"; Create "a"]) by reflexivity.
    rewrite Hq in Hparse. injection Hparse as <-.
    repeat constructor; apply Hcreate. }
  assert (Hopen : txn with_a <> Aborted) by (intros H; discriminate H).
  assert (Herr : (exec_result (Script "+b;+a") (committed with_a) (txn with_a)).2
                 = inl (ServerError (DuplicateObject "a"))) by reflexivity.
  split; [reflexivity|]. split; [exact Hopen|]. split; [exact Htr|].
  split; [exact Herr|]. split.
  { destruct (proj1 (failed_script_is_rolled_back env_ab "002_b.sql" "+b;+a" with_a
                       eq_refl)
                (exec_result (Script "+b;+a") (committed with_a) (txn with_a)).1
                (@ServerError toy_engine (DuplicateObject "a")) Hopen
                (pair_of_snd _ _ Herr))
      as (_ & _ & Hsame).
    exact (Hsame Htr). }
  apply (proj2 (failed_script_is_rolled_back env_ab "002_b.sql" "+b;+a" with_a eq_refl)
           (Create "b") (Create "a")
           (committed with_a)
           (DbState (Some {[ "001_a" ]}) ({[ "b" ]} ∪ {[ "a" ]}))
           (committed with_a)
           (DuplicateObject "a")).
  - now left.
  - reflexivity.
  - apply Hcreate.
  - apply Hcreate.
  - reflexivity.
  - reflexivity.
Defined.

(** C4, read literally, fails for a script that commits by itself:
    [002_b.sql] creates [b], commits, and fails on its third statement;
    [apply_migration] rolls back and returns [False], and [b] stays. *)
Lemma committed_statement_survives_rollback :
  read_file env_commit "002_b.sql" = inr "+b;COMMIT;+a" /\
  log (apply_migration env_commit "002_b.sql" with_a).1
  = [Print (Applying "002_b.sql"); EvOpen "002_b.sql";
     EvExecuteFailed (Script "+b;COMMIT;+a") (ServerError (DuplicateObject "a"));
     EvRollback;
     Print (FailedToApply "002_b.sql" (ServerError (DuplicateObject "a")))] /\
  (apply_migration env_commit "002_b.sql" with_a).2 = Ok false /\
  ("b" ∉ user_schema (committed with_a)) /\
  "b" ∈ user_schema (committed (apply_migration env_commit "002_b.sql" with_a).1) /\
  committed (apply_migration env_commit "002_b.sql" with_a).1 <> committed with_a.
Proof.
  assert (H1 : "b" ∉ user_schema (committed with_a)).
  { change ("b" ∉ ({[ "a" ]} : gset string)).
    intros Hb. apply elem_of_singleton in Hb. discriminate Hb. }
  assert (H2 : "b" ∈ user_schema
                       (committed (apply_migration env_commit "002_b.sql" with_a).1))
    by reflexivity.
  split; [reflexivity|]. split; [reflexivity|]. split; [reflexivity|].
  split; [exact H1|]. split; [exact H2|].
  intros Heq. apply H1. rewrite <- Heq. exact H2.
Qed.

Lemma skipped_iff_identity_recorded_witness :
  "001_initial_schema" <> "" /\
  extract_migration_id "001_initial_schema.sql" = "001_initial_schema".
Proof.
  split; [discriminate|].
  apply (proj1 (proj2 skipped_iff_identity_recorded) "001_initial_schema").
  discriminate.
Defined.





(** C9, read literally, fails when the database cannot be reached: the
    directory exists and holds no [.sql] file, and the run returns 1. *)
Lemma empty_catalog_offline_returns_one :
  migrations_dir env_empty_offline = Some dir_empty /\
  list_sql dir_empty = [] /\
  (run_migrations false env_empty_offline fresh).2 = Ok 1%Z.
Proof. repeat split; reflexivity. Qed.

Lemma empty_catalog_is_nothing_to_do_witness :
  db_reachable env_empty = true /\
  migrations_dir env_empty = Some dir_empty /\
  run_migrations false env_empty fresh
  = (State (committed fresh) Idle
       (log fresh ++ banner false ++ [EvConnect; Print Connected; Print NoFilesFound]),
     Ok 0%Z).
Proof.
  split; [reflexivity|]. split; [reflexivity|].
  apply (empty_catalog_is_nothing_to_do false env_empty dir_empty fresh eq_refl eq_refl).
  intros name [v Hv] Hsql. unfold dir_empty in Hv.
  apply lookup_singleton_Some in Hv as [<- _].
  apply FilenameFacts.matches_sql_spec in Hsql. discriminate Hsql.
Defined.

Lemma dry_run_cannot_fail_witness :
  db_reachable env_unreadable = true /\
  migrations_dir env_unreadable = Some dir_unreadable /\
  (run_migrations true env_unreadable fresh).2 = Ok 0%Z.
Proof.
  split; [reflexivity|]. split; [reflexivity|].
  apply (dry_run_cannot_fail env_unreadable dir_unreadable fresh
           (run_migrations true env_unreadable fresh).1
           (run_migrations true env_unreadable fresh).2
           eq_refl eq_refl (surjective_pairing _)).
Defined.

End Examples.

(** ** Instances of the further properties *)
Module FurtherExamples.
Import Toy.

Lemma exit_status_of_main_witness :
  (main (Flags false) env_ok fresh).2 = 0%Z /\
  db_reachable env_ok = true /\ is_Some (migrations_dir env_ok) /\
  (main Unrecognized env_ok fresh).2 = 2%Z /\
  (main Help env_ok fresh).1 = fresh.
Proof.
  assert (H0 : (main (Flags false) env_ok fresh).2 = 0%Z) by reflexivity.
  split; [exact H0|].
  destruct (exit_status_of_main (Flags false) env_ok fresh) as (_ & _ & Hzero & _).
  destruct (Hzero H0) as [Hh|(_ & Hdb & Hdir)]; [discriminate Hh|].
  split; [exact Hdb|]. split; [exact Hdir|]. split.
  - apply (exit_status_of_main Unrecognized env_ok fresh). reflexivity.
  - apply (exit_status_of_main Help env_ok fresh). now left.
Defined.

Lemma missing_directory_is_fatal_witness :
  migrations_dir (Env true None) = None /\
  (run_migrations true (Env true None) fresh).2 = Raise (SystemExit 1) /\
  (main (Flags true) (Env true None) fresh).2 = 1%Z.
Proof.
  split; [reflexivity|].
  destruct (missing_directory_is_fatal true (Env true None) fresh eq_refl) as [H _].
  destruct (H eq_refl) as (Hrun & Hmain & _).
  split; [now rewrite Hrun | exact Hmain].
Defined.

Lemma connection_closed_only_after_loop_witness :
  exists delta,
    log (run_migrations false env_empty fresh).1 = log fresh ++ delta /\
    EvConnect ∈ delta /\ (EvClose ∉ delta).
Proof.
  exists (banner false ++ [EvConnect; Print Connected; Print NoFilesFound]).
  assert (Hlog : log (run_migrations false env_empty fresh).1
                 = log fresh
                   ++ banner false ++ [EvConnect; Print Connected; Print NoFilesFound])
    by reflexivity.
  split; [exact Hlog|].
  destruct (connection_closed_only_after_loop false env_empty fresh
              (run_migrations false env_empty fresh).1
              (run_migrations false env_empty fresh).2
              (banner false ++ [EvConnect; Print Connected; Print NoFilesFound])
              (surjective_pairing _) Hlog) as [Hc Hcl].
  split.
  - apply Hc. reflexivity.
  - intros Hin. apply Hcl in Hin as (_ & dir & Hdir & Hne).
    injection Hdir as <-. apply Hne. reflexivity.
Defined.

Lemma create_migrations_table_is_idempotent_witness :
  txn fresh <> Aborted /\
  committed (create_migrations_table (create_migrations_table fresh).1).1
  = committed (create_migrations_table fresh).1.
Proof.
  assert (Ht : txn fresh <> Aborted) by (intros H; discriminate H).
  split; [exact Ht|].
  destruct (proj1 (create_migrations_table_is_idempotent fresh) Ht)
    as (_ & _ & _ & _ & Hc).
  exact Hc.
Defined.

Lemma mark_then_load_round_trip_witness :
  exists s1 s2,
    mark_migration_applied "002_b" with_a = (s1, Ok tt) /\
    get_applied_migrations s1 = (s2, Ok ({["002_b"]} ∪ {["001_a"]})).
Proof.
  destruct (mark_then_load_round_trip "002_b" with_a {["001_a"]})
    as (s1 & s2 & H1 & _ & _ & H2 & _).
  - intros H; discriminate H.
  - reflexivity.
  - cbn. lia.
  - exists s1, s2. split; assumption.
Defined.

Lemma mark_errors_abort_transaction_witness :
  txn fresh <> Aborted /\
  migrations_table (view fresh) = None /\
  (mark_migration_applied "001_a" fresh).2 = Raise (Psycopg2Error UndefinedTable) /\
  txn (mark_migration_applied "001_a" fresh).1 = Aborted.
Proof.
  assert (Ht : txn fresh <> Aborted) by (intros H; discriminate H).
  destruct (mark_errors_abort_transaction "001_a" fresh) as [H _].
  specialize (H Ht eq_refl). rewrite H.
  split; [exact Ht|]. split; [reflexivity|]. split; reflexivity.
Defined.

Lemma apply_migration_result_matches_log_witness :
  exists delta,
    log (apply_migration env_ab "002_b.sql" with_a).1
    = log with_a ++ Print (Applying "002_b.sql") :: EvOpen "002_b.sql" :: delta /\
    EvRollback ∈ delta /\
    (Print (Success "002_b.sql") ∉ delta).
Proof.
  destruct (apply_migration_result_matches_log env_ab "002_b.sql" with_a
              (apply_migration env_ab "002_b.sql" with_a).1 false)
    as (delta & _ & Hlog & Hfalse & Htrue & _).
  - apply Examples.pair_of_snd. reflexivity.
  - exists delta. split; [exact Hlog|]. split; [now apply Hfalse|].
    intros Hin. apply Htrue in Hin. discriminate Hin.
Defined.

Lemma committed_script_may_stay_unrecorded_witness :
  (@apply_migration Wild.engine Wild.env_drop "001_drop.sql" Wild.ready).2
  = Ok false /\
  migrations_table
    (committed (@apply_migration Wild.engine Wild.env_drop "001_drop.sql" Wild.ready).1)
  = None /\
  user_schema
    (committed (@apply_migration Wild.engine Wild.env_drop "001_drop.sql" Wild.ready).1)
  = user_schema (committed Wild.ready).
Proof.
  destruct (@committed_script_may_stay_unrecorded Wild.engine Wild.env_drop
              "001_drop.sql" "DROP TABLE schema_migrations" Wild.ready
              (DbState (Some ∅) ∅) (DbState None ∅) [] UndefinedTable
              eq_refl eq_refl eq_refl)
    as [Hrun _].
  rewrite Hrun. split; [reflexivity|]. split; reflexivity.
Defined.

Lemma identities_distinct_unless_bare_extension_witness :
  NoDup (extract_migration_id <$> list_sql dir_ok).
Proof.
  apply identities_distinct_unless_bare_extension.
  assert (Hno : dir_ok !! ".sql" = None) by reflexivity.
  intros [[x Hx] _]. rewrite Hno in Hx. discriminate Hx.
Defined.

Lemma identity_is_never_empty_witness :
  migrations_dir env_ab = Some dir_ab /\
  "001_a.sql" ∈ list_sql dir_ab /\
  extract_migration_id "001_a.sql" <> "" /\
  "001_a.sql" = extract_migration_id "001_a.sql" +:+ ".sql".
Proof.
  assert (Hin : "001_a.sql" ∈ list_sql dir_ab)
    by (apply (list_elem_of_lookup_2 _ 0); reflexivity).
  destruct (proj1 (identity_is_never_empty env_ab dir_ab eq_refl) "001_a.sql" Hin)
    as (Hne & Hname & _).
  split; [reflexivity|]. split; [exact Hin|]. split; [exact Hne|].
  apply Hname. discriminate.
Defined.

Lemma catalog_depends_only_on_sql_names_witness :
  list_sql dir_ab = list_sql (delete "README.md" dir_ab).
Proof.
  apply catalog_depends_only_on_sql_names.
  intros name Hm. rewrite lookup_delete_is_Some.
  split; [|now intros [_ H]].
  intros H. split; [|exact H].
  intros <-. discriminate Hm.
Defined.

Lemma dry_run_previews_real_run_witness :
  exists delta,
    log (run_migrations true env_ab with_a).1 = log with_a ++ delta /\
    announced delta = ["002_b.sql"] /\ opened delta = [].
Proof.
  exists (log (run_migrations true env_ab with_a).1).
  split; [reflexivity|].
  destruct (dry_run_previews_real_run env_ab dir_ab with_a eq_refl eq_refl)
    as [Hdry _].
  destruct (Hdry (run_migrations true env_ab with_a).1
                 (run_migrations true env_ab with_a).2
                 (log (run_migrations true env_ab with_a).1)
                 (surjective_pairing _) eq_refl) as (Ha & Ho & _).
  split; [rewrite Ha; reflexivity | exact Ho].
Defined.


Lemma summary_counts_match_log_witness :
  totals_printed (log (run_migrations false env_ab fresh).1)
  = [AppliedCount (length (succeeded (log (run_migrations false env_ab fresh).1)));
     FailedCount 1] /\
  length (opened (log (run_migrations false env_ab fresh).1))
  = S (length (succeeded (log (run_migrations false env_ab fresh).1))).
Proof.
  assert (Hr : (run_migrations false env_ab fresh).2 = Ok 1%Z) by reflexivity.
  assert (Hin : EvClose ∈ log (run_migrations false env_ab fresh).1).
  { rewrite Examples.run_ab_log. apply (list_elem_of_lookup_2 _ 31). reflexivity. }
  destruct (summary_counts_match_log false env_ab fresh
              (run_migrations false env_ab fresh).1
              (run_migrations false env_ab fresh).2
              (log (run_migrations false env_ab fresh).1)
              (surjective_pairing _) eq_refl)
    as [(Hno & _)|(_ & [(Hd & _)|[(_ & H0 & _)|(_ & _ & Ht & Ho)]])].
  - contradiction.
  - discriminate Hd.
  - rewrite Hr in H0. discriminate H0.
  - split; assumption.
Defined.


End FurtherExamples.
